(** * PlayerClient: a shallow embedding of [src/PlayerClient.py]

    The client receives MQTT messages, routes them by topic, renders a
    game-state snapshot as a 5x5 grid centred on the player, and reads the
    operator's moves in a loop.  The embedding keeps Python's dynamic
    typing: a decoded JSON document is a [pyvalue], every fallible
    operation returns in an output-and-exception monad, and [try]/[except]
    is a combinator that filters on the exception class. *)

From Stdlib Require Import ZArith Lia Strings.Byte Ascii String.
From Stdlib Require SpecFloat.
From stdpp Require Import base numbers list option pretty.

Local Open Scope Z_scope.

(** ** Python strings, bytes and values *)

(** A Python [str] is a sequence of Unicode code points. *)
Definition str := list N.

(** An ASCII literal of the source text, as a [str]. *)
Definition lit (s : string) : str := N_of_ascii <$> list_ascii_of_string s.

Fixpoint str_eqb (a b : str) : bool :=
  match a, b with
  | [], [] => true
  | x :: a', y :: b' => N.eqb x y && str_eqb a' b'
  | _, _ => false
  end.

(** [a.startswith(n)], used by the substring search. *)
Fixpoint starts_with (n h : str) : bool :=
  match n, h with
  | [], _ => true
  | x :: n', y :: h' => N.eqb x y && starts_with n' h'
  | _ :: _, [] => false
  end.

(** [n in h] on strings: [n] occurs in [h] as a contiguous substring. *)
Fixpoint contains (n h : str) : bool :=
  starts_with n h ||
  match h with
  | [] => false
  | _ :: h' => contains n h'
  end.

(** [sep.join(parts)]. *)
Fixpoint join (sep : str) (parts : list str) : str :=
  match parts with
  | [] => []
  | [p] => p
  | p :: rest => p ++ sep ++ join sep rest
  end.

(** Python floats are IEEE 754 binary64 numbers. *)
Definition float := SpecFloat.spec_float.
Definition prec : Z := 53.
Definition emax : Z := 1024.

(** The values [json.loads] can produce.  A dict keeps its items in
    insertion order; its keys are strings and are pairwise distinct. *)
#[warnings="-register-all"]
Inductive pyvalue :=
| PyNone
| PyBool (b : bool)
| PyInt (z : Z)
| PyFloat (f : float)
| PyStr (s : str)
| PyList (l : list pyvalue)
| PyDict (d : list (str * pyvalue)).

(** Induction on documents, through their lists and dicts. *)
Section DocumentInduction.
Variable P : pyvalue -> Prop.
Hypothesis Hnone : P PyNone.
Hypothesis Hbool : forall b, P (PyBool b).
Hypothesis Hint : forall z, P (PyInt z).
Hypothesis Hfloat : forall f, P (PyFloat f).
Hypothesis Hstr : forall s, P (PyStr s).
Hypothesis Hlist : forall docs, Forall P docs -> P (PyList docs).
Hypothesis Hdict : forall entries, Forall (fun kd => P (snd kd)) entries -> P (PyDict entries).

Fixpoint document_ind (doc : pyvalue) : P doc :=
  match doc with
  | PyNone => Hnone
  | PyBool b => Hbool b
  | PyInt z => Hint z
  | PyFloat f => Hfloat f
  | PyStr s => Hstr s
  | PyList docs =>
      Hlist docs
        ((fix all (docs : list pyvalue) : Forall P docs :=
            match docs with
            | [] => @List.Forall_nil _ P
            | d :: docs' => @List.Forall_cons _ P d docs' (document_ind d) (all docs')
            end) docs)
  | PyDict entries =>
      Hdict entries
        ((fix all (entries : list (str * pyvalue))
            : Forall (fun kd => P (snd kd)) entries :=
            match entries with
            | [] => @List.Forall_nil _ _
            | kd :: entries' =>
                @List.Forall_cons _ (fun kd => P (snd kd)) kd entries'
                  (document_ind (snd kd)) (all entries')
            end) entries)
  end.

End DocumentInduction.

(** The exception classes that occur.  All but [KeyboardInterrupt] derive
    from [Exception].  An exception is recorded by its class, a [KeyError]
    with its key; the text of its message is not part of the model. *)
Inductive exn :=
| AttributeError
| TypeError
| ValueError
| KeyError (key : pyvalue)
| IndexError
| OverflowError
| UnicodeDecodeError
| JSONDecodeError
| RecursionError
| EOFError
| KeyboardInterrupt.

(** [isinstance(e, Exception)]. *)
Definition is_Exception (e : exn) : bool :=
  match e with
  | KeyboardInterrupt => false
  | _ => true
  end.

Definition is_KeyboardInterrupt (e : exn) : bool :=
  match e with
  | KeyboardInterrupt => true
  | _ => false
  end.

(** ** Effects: standard output, the MQTT client, exceptions *)

(** The MQTT client is an external collaborator: a call of its [publish]
    is recorded, with its topic and payload, and returns. *)
Inductive event :=
| Print (text : str)                  (* print(text) *)
| PrintExn (label : str) (e : exn)    (* print(label, e) *)
| Prompt (text : str)                 (* the prompt written by input(text) *)
| Publish (topic payload : str).      (* client.publish(topic, payload) *)

Inductive outcome (A : Type) :=
| Return (a : A)
| Raise (e : exn).
Arguments Return {A} a.
Arguments Raise {A} e.

(** A computation yields the events it performed, in order, and either a
    value or the exception that ended it. *)
Definition M (A : Type) : Type := list event * outcome A.

Definition ret {A} (a : A) : M A := ([], Return a).
Definition raise {A} (e : exn) : M A := ([], Raise e).
Definition emit (ev : event) : M unit := ([ev], Return tt).

Definition bind {A B} (m : M A) (k : A -> M B) : M B :=
  match m with
  | (log, Return a) => let '(log', r) := k a in (log ++ log', r)
  | (log, Raise e) => (log, Raise e)
  end.

#[global] Instance M_ret : MRet M := @ret.
#[global] Instance M_bind : MBind M := fun A B k m => bind m k.

(** [try: body  except <class> as e: handler e]. *)
Definition try_except {A} (body : M A) (catches : exn -> bool)
    (handler : exn -> M A) : M A :=
  match body with
  | (log, Return a) => (log, Return a)
  | (log, Raise e) =>
      if catches e
      then let '(log', r) := handler e in (log ++ log', r)
      else (log, Raise e)
  end.

(** [for x in xs: acc = body x acc], the loop variable bound in turn to
    each item while the loop body updates the local state [acc]. *)
Fixpoint for_each {A S} (xs : list A) (body : A -> S -> M S) (acc : S) : M S :=
  match xs with
  | [] => mret acc
  | x :: rest => acc' ← body x acc; for_each rest body acc'
  end.

(** ** Python's operators on decoded values *)

Fixpoint dict_lookup (d : list (str * pyvalue)) (k : str) : option pyvalue :=
  match d with
  | [] => None
  | (k', v) :: rest => if str_eqb k' k then Some v else dict_lookup rest k
  end.

(** [obj.get(key, dflt)]: only a dict has the method. *)
Definition py_get (obj : pyvalue) (key : str) (dflt : pyvalue) : M pyvalue :=
  match obj with
  | PyDict d => mret (default dflt (dict_lookup d key))
  | _ => raise AttributeError
  end.

(** [iter(obj)], as the [for] statement and tuple unpacking use it: a list
    yields its items, a string its characters, a dict its keys. *)
Definition py_iter (obj : pyvalue) : M (list pyvalue) :=
  match obj with
  | PyList l => mret l
  | PyStr s => mret ((fun c => PyStr [c]) <$> s)
  | PyDict d => mret ((fun kv => PyStr (fst kv)) <$> d)
  | _ => raise TypeError
  end.

(** [x, y = obj]. *)
Definition py_unpack2 (obj : pyvalue) : M (pyvalue * pyvalue) :=
  items ← py_iter obj;
  match items with
  | [x; y] => mret (x, y)
  | _ => raise ValueError
  end.

(** A sequence index: [i] itself when [0 <= i < len], [i + len] when
    [-len <= i < 0], [IndexError] otherwise. *)
Definition seq_index (len : nat) (i : Z) : M nat :=
  if (0 <=? i) && (i <? Z.of_nat len) then mret (Z.to_nat i)
  else if (- Z.of_nat len <=? i) && (i <? 0) then mret (Z.to_nat (i + Z.of_nat len))
  else raise IndexError.

(** The position a subscript selects in a list or string of length [len].
    [bool] is a subclass of [int]; any other type is rejected. *)
Definition py_index (len : nat) (ix : pyvalue) : M nat :=
  match ix with
  | PyInt i => seq_index len i
  | PyBool b => seq_index len (Z.b2z b)
  | _ => raise TypeError
  end.

(** [obj[key]] on a decoded value. *)
Definition py_subscript (obj key : pyvalue) : M pyvalue :=
  match obj with
  | PyDict d =>
      match key with
      | PyStr k =>
          match dict_lookup d k with
          | Some v => mret v
          | None => raise (KeyError key)
          end
      | PyList _ | PyDict _ => raise TypeError    (* unhashable key *)
      | _ => raise (KeyError key)
      end
  | PyList l =>
      n ← py_index (length l) key;
      match l !! n with
      | Some v => mret v
      | None => raise IndexError
      end
  | PyStr s =>
      n ← py_index (length s) key;
      match s !! n with
      | Some c => mret (PyStr [c])
      | None => raise IndexError
      end
  | _ => raise TypeError
  end.

(** Numbers: [int] (with [bool]) and [float]. *)
Inductive number :=
| NInt (z : Z)
| NFloat (f : float).

Definition as_number (v : pyvalue) : option number :=
  match v with
  | PyInt z => Some (NInt z)
  | PyBool b => Some (NInt (Z.b2z b))
  | PyFloat f => Some (NFloat f)
  | _ => None
  end.

(** [float(z)] for an [int]: the nearest double, ties to even;
    [OverflowError] when it is out of range. *)
Definition float_of_int (z : Z) : M float :=
  match SpecFloat.binary_normalize prec emax z 0 false with
  | SpecFloat.S754_infinity _ => raise OverflowError
  | f => mret f
  end.

Definition to_float (n : number) : M float :=
  match n with
  | NInt z => float_of_int z
  | NFloat f => mret f
  end.

(** [a - b]. *)
Definition py_sub (a b : pyvalue) : M pyvalue :=
  match as_number a, as_number b with
  | Some (NInt x), Some (NInt y) => mret (PyInt (x - y))
  | Some x, Some y =>
      fx ← to_float x; fy ← to_float y;
      mret (PyFloat (SpecFloat.SFsub prec emax fx fy))
  | _, _ => raise TypeError
  end.

(** [a + k] for an [int] literal [k]: with an [int] on the right only a
    number on the left has a sum. *)
Definition py_add_int (a : pyvalue) (k : Z) : M pyvalue :=
  match as_number a with
  | Some (NInt x) => mret (PyInt (x + k))
  | Some (NFloat f) =>
      fk ← float_of_int k;
      mret (PyFloat (SpecFloat.SFadd prec emax f fk))
  | None => raise TypeError
  end.

(** The chained comparison [lo <= a < hi] for small [int] literals [lo]
    and [hi], which are exact as doubles; [a] is evaluated once. *)
Definition py_between (lo : Z) (a : pyvalue) (hi : Z) : M bool :=
  match as_number a with
  | Some (NInt x) => mret ((lo <=? x) && (x <? hi))
  | Some (NFloat f) =>
      flo ← float_of_int lo; fhi ← float_of_int hi;
      mret (SpecFloat.SFleb flo f && SpecFloat.SFltb f fhi)
  | None => raise TypeError
  end.

(** ** The game-state projection: [process_game_state] *)

Abbreviation grid := (list (list str)).

(** [grid[a][b] = mark] for index expressions [a] and [b]: [a] is
    evaluated and the row [grid[a]] fetched before [b] is evaluated.  The
    rows are distinct list objects, so only row [a] changes. *)
Definition store_cell (g : grid) (a b : M pyvalue) (mark : str) : M grid :=
  va ← a;
  i ← py_index (length g) va;
  match g !! i with
  | None => raise IndexError
  | Some row =>
      vb ← b;
      j ← py_index (length row) vb;
      mret (<[i := <[j := mark]> row]> g)
  end.

Definition center_x : Z := 2.
Definition center_y : Z := 2.

(** [v - state['currentPosition'][axis] + center]. *)
Definition relative (state v : pyvalue) (axis center : Z) : M pyvalue :=
  pos ← py_subscript state (PyStr (lit "currentPosition"));
  p ← py_subscript pos (PyInt axis);
  d ← py_sub v p;
  py_add_int d center.

(** The body of the loop over the coins (lines 95-96): no bounds check. *)
Definition place_coin (state coin : pyvalue) (g : grid) : M grid :=
  '(x, y) ← py_unpack2 coin;
  store_cell g (relative state x 0 center_x) (relative state y 1 center_y)
    (lit "C").

(** The body of the loop over the walls (lines 100-102).  The right
    operand of [and] is evaluated only when the left one holds. *)
Definition place_wall (state wall : pyvalue) (g : grid) : M grid :=
  '(x, y) ← py_unpack2 wall;
  a ← relative state x 0 center_x;
  in_x ← py_between 0 a 5;
  if in_x : bool then
    b ← relative state y 1 center_y;
    in_y ← py_between 0 b 5;
    if in_y : bool then
      store_cell g (relative state x 0 center_x) (relative state y 1 center_y)
        (lit "W")
    else mret g
  else mret g.

(** [' '] and the one-character string ["\n"]. *)
Definition blank : str := lit " ".
Definition newline : str := [10%N].

(** Lines 105-107: one line per row, then [print("\n")]. *)
Definition print_grid (g : grid) : M unit :=
  _ ← for_each g (fun row _ => emit (Print (join blank row))) tt;
  emit (Print newline).

(** The [try] block of [process_game_state], up to the finished grid. *)
Definition build_grid (state : pyvalue) : M grid :=
  let g := replicate 5 (replicate 5 blank) in
  g ← store_cell g (mret (PyInt center_x)) (mret (PyInt center_y)) (lit "P");
  coins ← py_get state (lit "coins") (PyList []);
  coins ← py_iter coins;
  g ← for_each coins (place_coin state) g;
  walls ← py_get state (lit "walls") (PyList []);
  walls ← py_iter walls;
  for_each walls (place_wall state) g.

Definition process_game_state (state : pyvalue) : M unit :=
  try_except
    (g ← build_grid state; print_grid g)
    is_Exception
    (fun e => emit (PrintExn (lit "Error processing game state:") e)).

(** ** Library functions of the Python runtime

    [json.loads] and [str.upper] belong to the interpreter's library, not
    to the client; the client is verified against any implementation. *)
Class Runtime := {
  json_loads : str -> outcome pyvalue;
  str_upper : str -> str;
}.

(** [bytes.decode()]: strict UTF-8. *)
Definition continuation (b : N) : bool := ((128 <=? b) && (b <=? 191))%N.

Definition cont_bits (b : N) : N := (b - 128)%N.

Fixpoint utf8_decode (bs : list N) : option str :=
  match bs with
  | [] => Some []
  | b0 :: r0 =>
      if (b0 <? 128)%N then cons b0 <$> utf8_decode r0
      else
        match r0 with
        | [] => None
        | b1 :: r1 =>
            if ((194 <=? b0) && (b0 <=? 223) && continuation b1)%N
            then cons ((b0 - 192) * 64 + cont_bits b1)%N <$> utf8_decode r1
            else
              match r1 with
              | [] => None
              | b2 :: r2 =>
                  if ((224 <=? b0) && (b0 <=? 239) && continuation b1
                      && continuation b2
                      && negb ((b0 =? 224) && (b1 <? 160))
                      && negb ((b0 =? 237) && (160 <=? b1)))%N
                  then cons ((b0 - 224) * 4096 + cont_bits b1 * 64
                             + cont_bits b2)%N <$> utf8_decode r2
                  else
                    match r2 with
                    | [] => None
                    | b3 :: r3 =>
                        if ((240 <=? b0) && (b0 <=? 244) && continuation b1
                            && continuation b2 && continuation b3
                            && negb ((b0 =? 240) && (b1 <? 144))
                            && negb ((b0 =? 244) && (144 <=? b1)))%N
                        then cons ((b0 - 240) * 262144 + cont_bits b1 * 4096
                                   + cont_bits b2 * 64 + cont_bits b3)%N
                               <$> utf8_decode r3
                        else None
                    end
              end
        end
  end.

Definition bytes_decode (bs : list byte) : M str :=
  match utf8_decode (Byte.to_N <$> bs) with
  | Some s => mret s
  | None => raise UnicodeDecodeError
  end.

(** [str(n)] for an [int]: its decimal digits. *)
Definition int_str (z : Z) : str := lit (pretty z).

(** [str(b)] for a [bytes] object, which is its [repr]. *)
Definition hex_digit (n : N) : N := (if n <? 10 then 48 + n else 87 + n)%N.

Definition repr_byte (quote c : N) : str :=
  (if (c =? quote) || (c =? 92) then [92; c]
   else if c =? 9 then [92; 116]
   else if c =? 10 then [92; 110]
   else if c =? 13 then [92; 114]
   else if (c <? 32) || (127 <=? c) then [92; 120; hex_digit (c / 16); hex_digit (c mod 16)]
   else [c])%N.

Definition bytes_str (bs : list byte) : str :=
  let cs := Byte.to_N <$> bs in
  let quote :=
    if existsb (N.eqb 39) cs && negb (existsb (N.eqb 34) cs) then 34%N else 39%N in
  lit "b" ++ [quote] ++ concat (repr_byte quote <$> cs) ++ [quote].

(** ** The message callback: [on_message] *)

Record MQTTMessage := {
  topic : str;
  qos : Z;
  payload : list byte;
}.

Definition lift {A} (o : outcome A) : M A := ([], o).

Section Client.
Context `{Runtime}.

Definition on_message (msg : MQTTMessage) : M unit :=
  _ ← emit (Print (lit "message: " ++ topic msg ++ lit " " ++ int_str (qos msg)
                   ++ lit " " ++ bytes_str (payload msg)));
  _ ← emit (Print (lit "Received message on " ++ topic msg ++ lit " with QoS "
                   ++ int_str (qos msg)));
  text ← bytes_decode (payload msg);
  if contains (lit "game_state") (topic msg) then
    game_state ← lift (json_loads text);
    process_game_state game_state
  else if contains (lit "scores") (topic msg) then
    emit (Print (lit "Scores: " ++ text))
  else
    emit (Print (lit "Message: " ++ text)).

(** ** The operator's input loop: [user_input_control] *)

(** What a call of [input()] meets on standard input. *)
Inductive stdin_event :=
| Line (text : str)     (* a line, without its newline *)
| CtrlC                 (* the interrupt signal *)
| EndOfInput.           (* end of file *)

(** [input(prompt)]. *)
Definition input (prompt : str) (ev : stdin_event) : M str :=
  _ ← emit (Prompt prompt);
  match ev with
  | Line text => mret text
  | CtrlC => raise KeyboardInterrupt
  | EndOfInput => raise EOFError
  end.

(** How far the function got on a finite prefix of standard input. *)
Inductive progress :=
| Returned              (* the function returned *)
| AwaitingInput.        (* blocked in [input()], the prefix is used up *)

Definition move_prompt (player_name : str) : str :=
  player_name ++ lit ", enter your move (UP, DOWN, LEFT, RIGHT or STOP to end): ".

Definition move_topic (lobby_name player_name : str) : str :=
  lit "games/" ++ lobby_name ++ lit "/" ++ player_name ++ lit "/move".

Definition start_topic (lobby_name : str) : str :=
  lit "games/" ++ lobby_name ++ lit "/start".

(** The [while True] loop (lines 72-80). *)
Fixpoint input_loop (player_name lobby_name : str) (stdin : list stdin_event)
    : M progress :=
  match stdin with
  | [] => _ ← emit (Prompt (move_prompt player_name)); mret AwaitingInput
  | ev :: rest =>
      line ← input (move_prompt player_name) ev;
      let move := str_upper line in
      if existsb (str_eqb move) [lit "UP"; lit "DOWN"; lit "LEFT"; lit "RIGHT"] then
        _ ← emit (Publish (move_topic lobby_name player_name) move);
        input_loop player_name lobby_name rest
      else if str_eqb move (lit "STOP") then
        _ ← emit (Publish (start_topic lobby_name) (lit "STOP"));
        mret Returned
      else
        _ ← emit (Print (lit "Invalid move. Please try again."));
        input_loop player_name lobby_name rest
  end.

Definition user_input_control (player_name lobby_name : str)
    (stdin : list stdin_event) : M progress :=
  try_except
    (input_loop player_name lobby_name stdin)
    is_KeyboardInterrupt
    (fun _ => _ ← emit (Print (lit "Game interrupted.")); mret Returned).

End Client.

(** The two lines [on_message] prints for every message (lines 58-59). *)
Definition announce (msg : MQTTMessage) : list event :=
  [ Print (lit "message: " ++ topic msg ++ lit " " ++ int_str (qos msg)
           ++ lit " " ++ bytes_str (payload msg));
    Print (lit "Received message on " ++ topic msg ++ lit " with QoS "
           ++ int_str (qos msg)) ].

(** ** Topics *)

Definition state_topic (lobby_name player_name : str) : str :=
  lit "games/" ++ lobby_name ++ lit "/" ++ player_name ++ lit "/game_state".

Definition lobby_topic (lobby_name : str) : str :=
  lit "games/" ++ lobby_name ++ lit "/lobby".

Definition nested_state_topic (lobby_name player_name extra : str) : str :=
  lit "games/" ++ lobby_name ++ lit "/" ++ player_name ++ lit "/" ++ extra
  ++ lit "/game_state".

(** The matching rule as the specification words it (section 4.2), to
    compare the callback with: patterns and topics are split at ['/']; a
    pattern segment ['+'] matches one non-empty segment, any other
    segment matches literally. *)
Fixpoint segments (s current : str) : list str :=
  match s with
  | [] => [current]
  | c :: rest =>
      if (c =? 47)%N then current :: segments rest []
      else segments rest (current ++ [c])
  end.

Fixpoint spec_segments_match (pattern topic : list str) : bool :=
  match pattern, topic with
  | [], [] => true
  | p :: pattern', t :: topic' =>
      (if str_eqb p (lit "+") then negb (str_eqb t []) else str_eqb p t)
      && spec_segments_match pattern' topic'
  | _, _ => false
  end.

Definition spec_topic_matches (pattern topic : str) : bool :=
  spec_segments_match (segments pattern []) (segments topic []).

(** The subscriptions of the client for a lobby (lines 140-142). *)
Definition spec_lobby_pattern (lobby_name : str) : str :=
  lit "games/" ++ lobby_name ++ lit "/lobby".
Definition spec_state_pattern (lobby_name : str) : str :=
  lit "games/" ++ lobby_name ++ lit "/+/game_state".
Definition spec_scores_pattern (lobby_name : str) : str :=
  lit "games/" ++ lobby_name ++ lit "/scores".

(** ** The session of the main block *)

Module Main.

(** Line 135. *)
Definition lobby_name : str := lit "TestLobby".

(** The topic filters the client subscribes to (lines 140-142): the
    broker delivers a message to [on_message] only when its topic matches
    one of them. *)
Definition subscriptions : list str :=
  [ lit "games/" ++ lobby_name ++ lit "/lobby";
    lit "games/" ++ lobby_name ++ lit "/+/game_state";
    lit "games/" ++ lobby_name ++ lit "/scores" ].

End Main.

(** ** An example runtime

    A stand-in for the interpreter's library, to run the callback and the
    input loop on closed examples: upper-casing of ASCII letters, and a
    JSON decoder that knows the empty object only. *)
Definition ascii_upper (s : str) : str :=
  (fun c => if (97 <=? c) && (c <=? 122) then c - 32 else c)%N <$> s.

Definition example_loads (text : str) : outcome pyvalue :=
  if str_eqb text (lit "{}") then Return (PyDict []) else Raise JSONDecodeError.

Definition example_runtime : Runtime :=
  {| json_loads := example_loads; str_upper := ascii_upper |}.

(** The bytes of an ASCII literal. *)
Definition bytes_lit (s : string) : list byte := list_byte_of_string s.

(** A state message whose body is not JSON. *)
Definition garbled_state_message : MQTTMessage :=
  {| topic := lit "games/TestLobby/Player1/game_state"; qos := 0;
     payload := bytes_lit "not json" |}.

(** A message on the lobby topic. *)
Definition lobby_message : MQTTMessage :=
  {| topic := lit "games/TestLobby/lobby"; qos := 0; payload := bytes_lit "{}" |}.

(** No character of [n] is [c]. *)
Definition avoids (c : N) (n : str) : bool := forallb (fun x => negb (N.eqb x c)) n.

(** ** Well-typed snapshots

    A [GameState] as the server sends it: integer coordinates throughout. *)

Definition Coordinate : Type := Z * Z.

Record GameState := {
  currentPosition : Coordinate;
  coins : list Coordinate;
  walls : list Coordinate;
}.

Definition coordinate_value (c : Coordinate) : pyvalue :=
  PyList [PyInt (fst c); PyInt (snd c)].

(** The document [json.loads] returns for the snapshot's JSON object. *)
Definition snapshot (gs : GameState) : pyvalue :=
  PyDict [ (lit "currentPosition", coordinate_value (currentPosition gs));
           (lit "coins", PyList (coordinate_value <$> coins gs));
           (lit "walls", PyList (coordinate_value <$> walls gs)) ].

(** The projected coordinates [(x - px + 2, y - py + 2)] of an entity. *)
Definition project (gs : GameState) (c : Coordinate) : Z * Z :=
  (fst c - fst (currentPosition gs) + center_x,
   snd c - snd (currentPosition gs) + center_y).

Definition in_view (p : Z * Z) : Prop :=
  0 <= fst p < 5 /\ 0 <= snd p < 5.

(** The index range a list of length 5 accepts: negative indices count
    from the end. *)
Definition indexable (p : Z * Z) : Prop :=
  -5 <= fst p < 5 /\ -5 <= snd p < 5.

(** The cell at row [r], column [c]. *)
Definition cell (g : grid) (r c : nat) : option str :=
  row ← g !! r; row !! c.

(** The [try] block of [process_game_state] completes with grid [g]. *)
Definition renders (state : pyvalue) (g : grid) : Prop :=
  build_grid state = mret g.

(** [g] is a 5x5 grid. *)
Definition shape5 (g : grid) : Prop :=
  length g = 5%nat /\ Forall (fun row => length row = 5%nat) g.

(** The grid after [g[r][c] = mark] for positions inside the grid. *)
Definition set_cell (g : grid) (r c : nat) (mark : str) : grid :=
  match g !! r with
  | Some row => <[r := <[c := mark]> row]> g
  | None => g
  end.

(** A coin is drawn on cell [(r, c)]: list indexing takes its projected
    coordinates modulo 5. *)
Definition coin_hits (gs : GameState) (r c : nat) (coin : Coordinate) : bool :=
  (fst (project gs coin) mod 5 =? Z.of_nat r) &&
  (snd (project gs coin) mod 5 =? Z.of_nat c).

(** A wall is drawn on cell [(r, c)]: its projected coordinates are
    exactly [(r, c)]. *)
Definition wall_hits (gs : GameState) (r c : nat) (wall : Coordinate) : bool :=
  (fst (project gs wall) =? Z.of_nat r) &&
  (snd (project gs wall) =? Z.of_nat c).

(** The content of cell [(r, c)] after the three drawing passes. *)
Definition expected_cell (gs : GameState) (r c : nat) : str :=
  if existsb (wall_hits gs r c) (walls gs) then lit "W"
  else if existsb (coin_hits gs r c) (coins gs) then lit "C"
  else if bool_decide (r = 2%nat /\ c = 2%nat) then lit "P"
  else blank.

(** [m] performs no output and either returns a value satisfying [P] or
    raises an exception that [except Exception] catches. *)
Definition guarded {A} (P : A -> Prop) (m : M A) : Prop :=
  match m with
  | ([], Return a) => P a
  | ([], Raise e) => is_Exception e = true
  | _ => False
  end.

Definition anything {A} (a : A) : Prop := True.

(** A difference or sum is a number, never a [bool]. *)
Definition is_numeric (v : pyvalue) : Prop :=
  match v with
  | PyInt _ | PyFloat _ => True
  | _ => False
  end.

(** The lines [print_grid] writes for [g]. *)
Definition grid_lines (g : grid) : list event :=
  ((fun row => Print (join blank row)) <$> g) ++ [Print newline].

(** The report of the [except] clause. *)
Definition error_report (e : exn) : list event :=
  [PrintExn (lit "Error processing game state:") e].

(** ** Example snapshots *)

(** The scenario of the specification: a coin far out of view. *)
Definition far_coin : GameState :=
  {| currentPosition := (0, 0); coins := [(10, 10)]; walls := [] |}.

(** A coin on the player's own cell. *)
Definition coin_on_player : GameState :=
  {| currentPosition := (0, 0); coins := [(0, 0)]; walls := [] |}.

(** A coin and a wall on the same cell to the right of the player. *)
Definition coin_under_wall : GameState :=
  {| currentPosition := (3, 3); coins := [(3, 4)]; walls := [(3, 4)] |}.

(** The basic scenario of the specification. *)
Definition basic_scene : GameState :=
  {| currentPosition := (3, 3); coins := [(3, 4)]; walls := [(2, 3)] |}.

(** A coin three cells above the player, which projects to row [-1]. *)
Definition coin_behind : GameState :=
  {| currentPosition := (0, 0); coins := [(-3, 0)]; walls := [(-3, 1)] |}.


(** ** Notions for the further properties *)

Definition is_dict (v : pyvalue) : bool :=
  match v with
  | PyDict _ => true
  | _ => false
  end.

(** The grid with the player alone. *)
Definition player_only : grid :=
  set_cell (replicate 5 (replicate 5 blank)) 2 2 (lit "P").

(** The four strings the function ever stores in a cell. *)
Definition marker (s : str) : Prop :=
  s = blank \/ s = lit "P" \/ s = lit "C" \/ s = lit "W".

(** A 5x5 grid of markers whose centre is not blank. *)
Definition tidy (g : grid) : Prop :=
  shape5 g /\ Forall (Forall marker) g /\ cell g 2 2 <> Some blank.

(** The same scene seen from another origin. *)
Definition shift (d : Z * Z) (c : Coordinate) : Coordinate :=
  (fst c + fst d, snd c + snd d).

Definition translate (d : Z * Z) (gs : GameState) : GameState :=
  {| currentPosition := shift d (currentPosition gs);
     coins := shift d <$> coins gs;
     walls := shift d <$> walls gs |}.

(** The messages a run handed to [client.publish], in order. *)
Definition published (out : list event) : list (str * str) :=
  omap (fun ev => match ev with
                  | Publish t m => Some (t, m)
                  | _ => None
                  end) out.

Definition directions : list str := [lit "UP"; lit "DOWN"; lit "LEFT"; lit "RIGHT"].

Definition is_direction (move : str) : bool := existsb (str_eqb move) directions.

(** The move messages a sequence of typed tokens gives rise to: one per
    token whose upper-casing is a direction, in order. *)
Definition move_messages `{Runtime} (player_name lobby_name : str)
    (tokens : list str) : list (str * str) :=
  (fun token => (move_topic lobby_name player_name, str_upper token))
    <$> List.filter (fun token => is_direction (str_upper token)) tokens.

(** Tokens typed in a session. *)
Definition typed_tokens : list str := [lit "up"; lit "jump"; lit "Left"].

(** The prompts a run wrote, one for every call of [input], in order. *)
Definition prompted (out : list event) : list str :=
  omap (fun ev => match ev with
                  | Prompt text => Some text
                  | _ => None
                  end) out.

(** Two snapshots with the same coins and walls, listed differently. *)
Definition scene_once : GameState :=
  {| currentPosition := (0, 0); coins := [(1, 0); (0, 1)]; walls := [(1, 1)] |}.

Definition scene_repeated : GameState :=
  {| currentPosition := (0, 0); coins := [(0, 1); (1, 0); (0, 1)];
     walls := [(1, 1); (1, 1)] |}.

(** ** The projection on the heap

    A second embedding of [process_game_state], one level down: lists and
    dicts are objects in a heap, variables hold references to them, and
    [grid[a][b] = mark] is a store into the object [grid[a]] refers to.
    Here a call could keep something from an earlier one, or change the
    snapshot it is given; the embedding above, on values, cannot. *)

Definition loc : Type := nat.

(** What a variable or a container slot holds: an immutable atom, or a
    reference to a list or dict. *)
Inductive hval :=
| HNone
| HBool (b : bool)
| HInt (z : Z)
| HFloat (f : float)
| HStr (s : str)
| HRef (l : loc).

Inductive hobj :=
| HList (items : list hval)
| HDict (items : list (str * hval)).

(** The objects allocated so far; a reference is the position of its
    object.  Which position a new object gets is not observable. *)
Abbreviation heap := (list hobj).

(** A computation on the heap.  [None] stands for a state no execution
    reaches: a reference without an object, or a store into a dict. *)
Definition H (A : Type) : Type := heap -> option (heap * M A).

Definition h_ret {A} (a : A) : H A := fun h => Some (h, mret a).

Definition h_bind {A B} (m : H A) (k : A -> H B) : H B := fun h =>
  match m h with
  | None => None
  | Some (h1, (log, Raise e)) => Some (h1, (log, Raise e))
  | Some (h1, (log, Return a)) =>
      match k a h1 with
      | None => None
      | Some (h2, (log', r)) => Some (h2, (log ++ log', r))
      end
  end.

#[global] Instance H_ret : MRet H := @h_ret.
#[global] Instance H_bind : MBind H := fun A B k m => h_bind m k.

(** A computation that does not touch the heap. *)
Definition pure {A} (m : M A) : H A := fun h => Some (h, m).

Definition h_try_except {A} (body : H A) (catches : exn -> bool)
    (handler : exn -> H A) : H A := fun h =>
  match body h with
  | None => None
  | Some (h1, (log, Return a)) => Some (h1, (log, Return a))
  | Some (h1, (log, Raise e)) =>
      if catches e then
        match handler e h1 with
        | None => None
        | Some (h2, (log', r)) => Some (h2, (log ++ log', r))
        end
      else Some (h1, (log, Raise e))
  end.

Fixpoint h_for_each {A S} (xs : list A) (body : A -> S -> H S) (acc : S) : H S :=
  match xs with
  | [] => mret acc
  | x :: rest => acc' ← body x acc; h_for_each rest body acc'
  end.

(** A new object. *)
Definition alloc (o : hobj) : H hval := fun h => Some (h ++ [o], mret (HRef (length h))).

Definition fetch (l : loc) : H hobj := fun h =>
  match h !! l with
  | Some o => Some (h, mret o)
  | None => None
  end.

Definition put (l : loc) (o : hobj) : H unit := fun h => Some (<[l := o]> h, mret tt).

Fixpoint hdict_lookup (items : list (str * hval)) (k : str) : option hval :=
  match items with
  | [] => None
  | (k', v) :: rest => if str_eqb k' k then Some v else hdict_lookup rest k
  end.

(** [obj.get(key, dflt)]: the method is looked up first, then the
    arguments are evaluated, then it is called. *)
Definition h_get (obj : hval) (key : str) (dflt : H hval) : H hval :=
  match obj with
  | HRef l =>
      o ← fetch l;
      match o with
      | HDict items => d ← dflt; mret (default d (hdict_lookup items key))
      | HList _ => pure (raise AttributeError)
      end
  | _ => pure (raise AttributeError)
  end.

(** [iter(obj)], the items taken when the loop starts: the loops of
    [process_game_state] store into rows of the grid only, never into
    the list they run over. *)
Definition h_iter (obj : hval) : H (list hval) :=
  match obj with
  | HRef l =>
      o ← fetch l;
      match o with
      | HList items => mret items
      | HDict items => mret ((fun kv => HStr (fst kv)) <$> items)
      end
  | HStr s => mret ((fun c => HStr [c]) <$> s)
  | _ => pure (raise TypeError)
  end.

Definition h_unpack2 (obj : hval) : H (hval * hval) :=
  items ← h_iter obj;
  match items with
  | [x; y] => mret (x, y)
  | _ => pure (raise ValueError)
  end.

(** [obj[key]]; the key is a literal or a computed number. *)
Definition h_subscript (obj : hval) (key : pyvalue) : H hval :=
  match obj with
  | HRef l =>
      o ← fetch l;
      match o with
      | HDict items =>
          match key with
          | PyStr k =>
              match hdict_lookup items k with
              | Some v => mret v
              | None => pure (raise (KeyError key))
              end
          | PyList _ | PyDict _ => pure (raise TypeError)
          | _ => pure (raise (KeyError key))
          end
      | HList items =>
          n ← pure (py_index (length items) key);
          match items !! n with
          | Some v => mret v
          | None => pure (raise IndexError)
          end
      end
  | HStr s =>
      n ← pure (py_index (length s) key);
      match s !! n with
      | Some c => mret (HStr [c])
      | None => pure (raise IndexError)
      end
  | _ => pure (raise TypeError)
  end.

(** [obj[key] = v]: a store into a list object.  Atoms do not support
    item assignment. *)
Definition h_store (obj : hval) (key : pyvalue) (v : hval) : H unit :=
  match obj with
  | HRef l =>
      o ← fetch l;
      match o with
      | HList items =>
          n ← pure (py_index (length items) key);
          put l (HList (<[n := v]> items))
      | HDict _ => fun _ => None
      end
  | _ => pure (raise TypeError)
  end.

(** How the arithmetic and comparison operators see a value: they tell
    numbers from everything else, and a list or dict is not a number. *)
Definition operand (v : hval) : pyvalue :=
  match v with
  | HNone => PyNone
  | HBool b => PyBool b
  | HInt z => PyInt z
  | HFloat f => PyFloat f
  | HStr s => PyStr s
  | HRef _ => PyList []
  end.

(** [v - state['currentPosition'][axis] + center]: a number. *)
Definition h_relative (state v : hval) (axis center : Z) : H pyvalue :=
  pos ← h_subscript state (PyStr (lit "currentPosition"));
  p ← h_subscript pos (PyInt axis);
  pure (d ← py_sub (operand v) (operand p); py_add_int d center).

(** [grid[a][b] = mark]. *)
Definition h_store_cell (grid : hval) (a b : H pyvalue) (mark : str) : H unit :=
  va ← a;
  row ← h_subscript grid va;
  vb ← b;
  h_store row vb (HStr mark).

Definition h_place_coin (state grid coin : hval) : H unit :=
  '(x, y) ← h_unpack2 coin;
  h_store_cell grid (h_relative state x 0 center_x) (h_relative state y 1 center_y)
    (lit "C").

Definition h_place_wall (state grid wall : hval) : H unit :=
  '(x, y) ← h_unpack2 wall;
  a ← h_relative state x 0 center_x;
  in_x ← pure (py_between 0 a 5);
  if in_x : bool then
    b ← h_relative state y 1 center_y;
    in_y ← pure (py_between 0 b 5);
    if in_y : bool then
      h_store_cell grid (h_relative state x 0 center_x) (h_relative state y 1 center_y)
        (lit "W")
    else mret tt
  else mret tt.

(** [[[' ' for _ in range(5)] for _ in range(5)]]: five new rows and a
    new list that refers to them. *)
Definition h_new_grid : H hval :=
  rows ← h_for_each (seq 0 5)
            (fun _ rows => row ← alloc (HList (replicate 5 (HStr blank)));
                           mret (rows ++ [row])) [];
  alloc (HList rows).

(** [sep.join(cells)]: every item has to be a string. *)
Fixpoint h_join (sep : str) (cells : list hval) : M str :=
  match cells with
  | [] => mret []
  | HStr c :: rest =>
      text ← h_join sep rest;
      mret (match rest with [] => c | _ => c ++ sep ++ text end)
  | _ :: _ => raise TypeError
  end.

Definition h_print_grid (grid : hval) : H unit :=
  rows ← h_iter grid;
  _ ← h_for_each rows
        (fun row _ => cells ← h_iter row;
                      text ← pure (h_join blank cells);
                      pure (emit (Print text))) tt;
  pure (emit (Print newline)).

Definition h_process_game_state (state : hval) : H unit :=
  h_try_except
    (grid ← h_new_grid;
     _ ← h_store_cell grid (mret (PyInt center_x)) (mret (PyInt center_y)) (lit "P");
     coins ← h_get state (lit "coins") (alloc (HList []));
     coins ← h_iter coins;
     _ ← h_for_each coins (fun coin _ => h_place_coin state grid coin) tt;
     walls ← h_get state (lit "walls") (alloc (HList []));
     walls ← h_iter walls;
     _ ← h_for_each walls (fun wall _ => h_place_wall state grid wall) tt;
     h_print_grid grid)
    is_Exception
    (fun e => pure (emit (PrintExn (lit "Error processing game state:") e))).

(** The heap holds the document [doc] at [v]: atoms are themselves, a list
    or dict is an object whose slots hold its items. *)
Fixpoint represents (h : heap) (v : hval) (doc : pyvalue) {struct doc} : Prop :=
  match doc with
  | PyNone => v = HNone
  | PyBool b => v = HBool b
  | PyInt z => v = HInt z
  | PyFloat f => v = HFloat f
  | PyStr s => v = HStr s
  | PyList docs =>
      exists l items, v = HRef l /\ h !! l = Some (HList items) /\
        (fix all (items : list hval) (docs : list pyvalue) {struct docs} : Prop :=
           match docs, items with
           | [], [] => True
           | d :: docs', i :: items' => represents h i d /\ all items' docs'
           | _, _ => False
           end) items docs
  | PyDict entries =>
      exists l items, v = HRef l /\ h !! l = Some (HDict items) /\
        (fix all (items : list (str * hval)) (entries : list (str * pyvalue))
             {struct entries} : Prop :=
           match entries, items with
           | [], [] => True
           | (k, d) :: entries', (k', i) :: items' =>
               k' = k /\ represents h i d /\ all items' entries'
           | _, _ => False
           end) items entries
  end.

(** The items of a represented list or dict, slot by slot. *)
Definition represents_entry (h : heap) (item : str * hval) (entry : str * pyvalue) : Prop :=
  fst item = fst entry /\ represents h (snd item) (snd entry).

(** Every object of [h] is still there, unchanged, in [h']. *)
Definition extends (h h' : heap) : Prop :=
  forall l o, h !! l = Some o -> h' !! l = Some o.

(** The heap while a call runs: the objects [h0] it found, the five rows
    of its grid, the list of the rows, and the empty lists allocated for
    the defaults of [get]. *)
Definition rows_of (g : grid) : heap := (fun row => HList (HStr <$> row)) <$> g.

Definition grid_heap (h0 : heap) (g : grid) (extra : heap) : heap :=
  h0 ++ rows_of g ++ [HList (HRef <$> seq (length h0) 5%nat)] ++ extra.

Definition grid_ref (h0 : heap) : hval := HRef (length h0 + 5)%nat.

(** The heaps a call that started in [h0] runs through. *)
Definition running (h0 h : heap) : Prop :=
  exists g extra, shape5 g /\ h = grid_heap h0 g extra.

(** The heap computation [hm], started in [h], does what the computation
    on values [pm] does: the same output, and either results related by
    [R] or the same exception, in a heap that satisfies [E]. *)
Definition sim {A B} (hm : H A) (h : heap) (pm : M B)
    (R : heap -> A -> B -> Prop) (E : heap -> Prop) : Prop :=
  match pm with
  | (log, Return b) => exists h' a, hm h = Some (h', (log, Return a)) /\ R h' a b
  | (log, Raise e) => exists h', hm h = Some (h', (log, Raise e)) /\ E h'
  end.

(** The basic scenario as [json.loads] builds it: every list and the dict
    is an object of its own; the dict is the last one. *)
Definition scene_heap : heap :=
  [ HList [HInt 3; HInt 3];
    HList [HInt 3; HInt 4];
    HList [HRef 1%nat];
    HList [HInt 2; HInt 3];
    HList [HRef 3%nat];
    HDict [ (lit "currentPosition", HRef 0%nat);
            (lit "coins", HRef 2%nat);
            (lit "walls", HRef 4%nat) ] ].

Definition scene_ref : hval := HRef 5%nat.

(** * Properties *)

(** ** The monad *)

Lemma bind_ret {A B} (a : A) (k : A -> M B) : (mret a ≫= k) = k a.
Proof. cbv [mbind mret M_bind M_ret bind ret]. by destruct (k a). Qed.

Lemma bind_raise {A B} (e : exn) (k : A -> M B) : (raise e ≫= k) = raise e.
Proof. reflexivity. Qed.

Lemma bind_assoc {A B C} (m : M A) (k : A -> M B) (h : B -> M C) :
  (m ≫= k) ≫= h = m ≫= (fun a => k a ≫= h).
Proof.
  cbv [mbind M_bind bind]. destruct m as [log [a|e]]; [|done].
  destruct (k a) as [log1 [b|e]]; [|done].
  destruct (h b) as [log2 r]. by rewrite app_assoc.
Qed.

Lemma bind_emit {B} (ev : event) (k : unit -> M B) :
  (emit ev ≫= k) = (ev :: fst (k tt), snd (k tt)).
Proof. cbv [mbind M_bind bind emit]. by destruct (k tt). Qed.

Lemma bind_value {A B} (log : list event) (a : A) (k : A -> M B) :
  ((log, Return a) : M A) ≫= k = (log ++ fst (k a), snd (k a)).
Proof. cbv [mbind M_bind bind]. by destruct (k a). Qed.

Lemma for_each_cons {A S} (x : A) (xs : list A) (body : A -> S -> M S) (acc : S) :
  for_each (x :: xs) body acc = body x acc ≫= for_each xs body.
Proof. reflexivity. Qed.

(** ** Sequence indices *)

Lemma seq_index_in_range (len : nat) (i : Z) :
  0 <= i < Z.of_nat len -> seq_index len i = mret (Z.to_nat i).
Proof.
  intros Hi. unfold seq_index.
  replace ((0 <=? i) && (i <? Z.of_nat len)) with true; [done|].
  symmetry. apply andb_true_iff. split; [apply Z.leb_le | apply Z.ltb_lt]; lia.
Qed.

Lemma seq_index_negative (len : nat) (i : Z) :
  - Z.of_nat len <= i < 0 -> seq_index len i = mret (Z.to_nat (i + Z.of_nat len)).
Proof.
  intros Hi. unfold seq_index.
  replace (0 <=? i) with false by (symmetry; apply Z.leb_gt; lia).
  replace ((- Z.of_nat len <=? i) && (i <? 0)) with true; [done|].
  symmetry. apply andb_true_iff. split; [apply Z.leb_le | apply Z.ltb_lt]; lia.
Qed.

Lemma seq_index_out_of_range (len : nat) (i : Z) :
  i < - Z.of_nat len \/ Z.of_nat len <= i -> seq_index len i = raise IndexError.
Proof.
  intros Hi. unfold seq_index.
  replace ((0 <=? i) && (i <? Z.of_nat len)) with false.
  - replace ((- Z.of_nat len <=? i) && (i <? 0)) with false; [done|].
    symmetry. apply andb_false_iff.
    destruct Hi; [left; apply Z.leb_gt | right; apply Z.ltb_ge]; lia.
  - symmetry. apply andb_false_iff.
    destruct Hi; [left; apply Z.leb_gt | right; apply Z.ltb_ge]; lia.
Qed.

Lemma seq_index_result (len : nat) (i : Z) :
  (exists n, seq_index len i = mret n /\ (n < len)%nat /\
     (Z.of_nat n = i \/ Z.of_nat n = i + Z.of_nat len)) \/
  seq_index len i = raise IndexError.
Proof.
  destruct (decide (0 <= i < Z.of_nat len)).
  { left. exists (Z.to_nat i). rewrite seq_index_in_range by done. split; [done|]. lia. }
  destruct (decide (- Z.of_nat len <= i < 0)).
  { left. exists (Z.to_nat (i + Z.of_nat len)).
    rewrite seq_index_negative by done. split; [done|]. lia. }
  right. apply seq_index_out_of_range. lia.
Qed.

(** ** Grid updates *)

Lemma shape5_row (g : grid) (r : nat) :
  shape5 g -> (r < 5)%nat -> exists row, g !! r = Some row /\ length row = 5%nat.
Proof.
  intros [Hlen Hrows] Hr.
  destruct (lookup_lt_is_Some_2 g r) as [row Hrow]; [lia|].
  exists row. split; [done|].
  by apply (Forall_lookup_1 _ _ _ _ Hrows Hrow).
Qed.

Lemma shape5_set_cell (g : grid) (r c : nat) (mark : str) :
  shape5 g -> shape5 (set_cell g r c mark).
Proof.
  intros [Hlen Hrows]. unfold set_cell.
  destruct (g !! r) as [row|] eqn:Hrow; [|done].
  split; [by rewrite length_insert|].
  apply Forall_insert; [done|].
  rewrite length_insert. by apply (Forall_lookup_1 _ _ _ _ Hrows Hrow).
Qed.

Lemma cell_set_cell (g : grid) (r c r' c' : nat) (mark : str) :
  shape5 g -> (r < 5)%nat -> (c < 5)%nat ->
  cell (set_cell g r c mark) r' c' =
    if bool_decide (r = r' /\ c = c') then Some mark else cell g r' c'.
Proof.
  intros Hg Hr Hc. destruct (shape5_row g r Hg Hr) as (row & Hrow & Hlen).
  unfold set_cell, cell. rewrite Hrow.
  destruct (decide (r = r')) as [<-|Hne].
  - rewrite list_lookup_insert_eq by (apply lookup_lt_Some in Hrow; lia).
    rewrite Hrow. simpl.
    destruct (decide (c = c')) as [<-|Hne].
    + rewrite bool_decide_eq_true_2 by done.
      apply list_lookup_insert_eq. lia.
    + rewrite bool_decide_eq_false_2 by tauto.
      by apply list_lookup_insert_ne.
  - rewrite bool_decide_eq_false_2 by tauto.
    by rewrite list_lookup_insert_ne.
Qed.

Lemma shape5_initial : shape5 (replicate 5 (replicate 5 blank)).
Proof. split; [done|]. repeat constructor. Qed.

(** [grid[i][j] = mark] with integer indices on a 5x5 grid. *)
Lemma store_cell_indexable (g : grid) (i j : Z) (mark : str) :
  shape5 g -> indexable (i, j) ->
  store_cell g (mret (PyInt i)) (mret (PyInt j)) mark =
    mret (set_cell g (Z.to_nat (i mod 5)) (Z.to_nat (j mod 5)) mark).
Proof.
  intros Hg [Hi Hj]. simpl in Hi, Hj.
  assert (Hr : (Z.to_nat (i mod 5) < 5)%nat) by (pose proof (Z.mod_pos_bound i 5); lia).
  destruct (shape5_row g _ Hg Hr) as (row & Hrow & Hlen).
  assert (Hidx : forall k, -5 <= k < 5 -> seq_index 5 k = mret (Z.to_nat (k mod 5))).
  { intros k Hk. destruct (decide (0 <= k)).
    - rewrite seq_index_in_range by lia. by rewrite Z.mod_small by lia.
    - rewrite seq_index_negative by lia. change (Z.of_nat 5) with 5.
      by rewrite (Z.mod_unique_pos k 5 (-1) (k + 5)) by lia. }
  unfold store_cell, set_cell. rewrite bind_ret. simpl py_index.
  rewrite (proj1 Hg), Hidx by done. rewrite bind_ret, Hrow, bind_ret.
  simpl py_index. rewrite Hlen, Hidx by done. by rewrite bind_ret.
Qed.

Lemma store_cell_not_indexable (g : grid) (i j : Z) (mark : str) :
  shape5 g -> ~ indexable (i, j) ->
  store_cell g (mret (PyInt i)) (mret (PyInt j)) mark = raise IndexError.
Proof.
  intros Hg Hij. unfold store_cell. rewrite bind_ret. simpl py_index.
  rewrite (proj1 Hg).
  destruct (decide (-5 <= i < 5)) as [Hi|Hi].
  - destruct (seq_index_result 5 i) as [(n & -> & Hn & _)|Hraise].
    + rewrite bind_ret. destruct (shape5_row g n Hg Hn) as (row & -> & Hlen).
      rewrite bind_ret. simpl py_index. rewrite Hlen.
      rewrite seq_index_out_of_range; [done|].
      unfold indexable in Hij. simpl in Hij. lia.
    + by rewrite Hraise.
  - rewrite seq_index_out_of_range; [done|]. lia.
Qed.

(** ** The drawing passes on a well-typed snapshot *)

Lemma py_between_int (lo x hi : Z) :
  py_between lo (PyInt x) hi = mret ((lo <=? x) && (x <? hi)).
Proof. reflexivity. Qed.

Section Snapshot.
Variable gs : GameState.

Lemma relative_snapshot_x (x : Z) :
  relative (snapshot gs) (PyInt x) 0 center_x =
    mret (PyInt (x - fst (currentPosition gs) + center_x)).
Proof. reflexivity. Qed.

Lemma relative_snapshot_y (y : Z) :
  relative (snapshot gs) (PyInt y) 1 center_y =
    mret (PyInt (y - snd (currentPosition gs) + center_y)).
Proof. reflexivity. Qed.

Lemma place_coin_snapshot (coin : Coordinate) (g : grid) :
  place_coin (snapshot gs) (coordinate_value coin) g =
    store_cell g (mret (PyInt (fst (project gs coin))))
      (mret (PyInt (snd (project gs coin)))) (lit "C").
Proof.
  unfold place_coin. change (py_unpack2 (coordinate_value coin))
    with (mret (M := M) (PyInt (fst coin), PyInt (snd coin))).
  rewrite bind_ret. cbv beta iota.
  by rewrite relative_snapshot_x, relative_snapshot_y.
Qed.

Lemma place_wall_snapshot (wall : Coordinate) (g : grid) :
  place_wall (snapshot gs) (coordinate_value wall) g =
    let p := project gs wall in
    if (0 <=? fst p) && (fst p <? 5) then
      if (0 <=? snd p) && (snd p <? 5) then
        store_cell g (mret (PyInt (fst p))) (mret (PyInt (snd p))) (lit "W")
      else mret g
    else mret g.
Proof.
  unfold place_wall. change (py_unpack2 (coordinate_value wall))
    with (mret (M := M) (PyInt (fst wall), PyInt (snd wall))).
  rewrite bind_ret. cbv beta iota.
  rewrite relative_snapshot_x, bind_ret, py_between_int, bind_ret.
  change (fst wall - fst (currentPosition gs) + center_x) with (fst (project gs wall)).
  destruct ((0 <=? fst (project gs wall)) && (fst (project gs wall) <? 5)); [|done].
  rewrite relative_snapshot_y, bind_ret, py_between_int, bind_ret.
  change (snd wall - snd (currentPosition gs) + center_y) with (snd (project gs wall)).
  by destruct ((0 <=? snd (project gs wall)) && (snd (project gs wall) <? 5)).
Qed.

Lemma coin_hits_spec (r c : nat) (coin : Coordinate) :
  coin_hits gs r c coin = true <->
  fst (project gs coin) mod 5 = Z.of_nat r /\ snd (project gs coin) mod 5 = Z.of_nat c.
Proof. unfold coin_hits. rewrite andb_true_iff, !Z.eqb_eq. tauto. Qed.

Lemma wall_hits_spec (r c : nat) (wall : Coordinate) :
  wall_hits gs r c wall = true <-> project gs wall = (Z.of_nat r, Z.of_nat c).
Proof.
  unfold wall_hits. rewrite andb_true_iff, !Z.eqb_eq.
  destruct (project gs wall) as [i j]. simpl. split; [intros [-> ->]; done|].
  by intros [= -> ->].
Qed.

(** The coin pass: it completes exactly when every coin is indexable, and
    then every cell a coin indexes holds ['C']. *)
Lemma coin_pass (cs : list Coordinate) (g : grid) :
  shape5 g -> Forall (fun coin => indexable (project gs coin)) cs ->
  exists g', for_each (coordinate_value <$> cs) (place_coin (snapshot gs)) g = mret g' /\
    shape5 g' /\
    forall r c, (r < 5)%nat -> (c < 5)%nat ->
      cell g' r c = if existsb (coin_hits gs r c) cs then Some (lit "C") else cell g r c.
Proof.
  intros Hg Hcs. revert g Hg.
  induction Hcs as [|coin cs Hcoin _ IH]; intros g Hg.
  { exists g. by split_and!. }
  simpl for_each. rewrite place_coin_snapshot.
  destruct (project gs coin) as [i j] eqn:Hp.
  rewrite store_cell_indexable by done. rewrite bind_ret.
  destruct (IH (set_cell g (Z.to_nat (i mod 5)) (Z.to_nat (j mod 5)) (lit "C")))
    as (g' & Hrun & Hg' & Hcell); [by apply shape5_set_cell|].
  exists g'. split_and!; [done..|].
  intros r c Hr Hc. rewrite Hcell by done. simpl existsb.
  destruct Hcoin as [Hi Hj]. simpl in Hi, Hj.
  pose proof (Z.mod_pos_bound i 5). pose proof (Z.mod_pos_bound j 5).
  rewrite cell_set_cell by (done || lia).
  destruct (existsb (coin_hits gs r c) cs); [by rewrite orb_true_r|].
  rewrite orb_false_r. unfold coin_hits. rewrite Hp. simpl fst. simpl snd.
  case_bool_decide as Hrc.
  - destruct Hrc as [<- <-]. rewrite !Z2Nat.id by lia. by rewrite !Z.eqb_refl.
  - destruct (i mod 5 =? Z.of_nat r) eqn:Hir; [|done].
    destruct (j mod 5 =? Z.of_nat c) eqn:Hjc; [|done].
    apply Z.eqb_eq in Hir, Hjc. exfalso. apply Hrc. lia.
Qed.

Lemma coin_pass_aborts (cs : list Coordinate) (g : grid) :
  shape5 g -> Exists (fun coin => ~ indexable (project gs coin)) cs ->
  for_each (coordinate_value <$> cs) (place_coin (snapshot gs)) g = raise IndexError.
Proof.
  intros Hg Hcs. revert g Hg.
  induction cs as [|coin cs IH]; intros g Hg; [by apply Exists_nil in Hcs|].
  simpl for_each. rewrite place_coin_snapshot.
  destruct (decide (indexable (project gs coin))) as [Hin|Hout].
  - apply Exists_cons in Hcs as [Hbad|Hrest]; [by destruct Hbad|].
    destruct (project gs coin) as [i j].
    rewrite store_cell_indexable by done. rewrite bind_ret.
    apply IH; [done|by apply shape5_set_cell].
  - destruct (project gs coin) as [i j].
    by rewrite store_cell_not_indexable.
Qed.

(** The wall pass always completes; every cell a wall projects onto holds
    ['W'] and the other cells are unchanged. *)
Lemma wall_pass (ws : list Coordinate) (g : grid) :
  shape5 g ->
  exists g', for_each (coordinate_value <$> ws) (place_wall (snapshot gs)) g = mret g' /\
    shape5 g' /\
    forall r c, (r < 5)%nat -> (c < 5)%nat ->
      cell g' r c = if existsb (wall_hits gs r c) ws then Some (lit "W") else cell g r c.
Proof.
  revert g. induction ws as [|wall ws IH]; intros g Hg.
  { exists g. by split_and!. }
  simpl for_each. rewrite place_wall_snapshot. cbv zeta.
  destruct (project gs wall) as [i j] eqn:Hp. simpl fst. simpl snd.
  destruct ((0 <=? i) && (i <? 5)) eqn:Hi; [destruct ((0 <=? j) && (j <? 5)) eqn:Hj|].
  - apply andb_true_iff in Hi as [Hi1 Hi2]. apply andb_true_iff in Hj as [Hj1 Hj2].
    apply Z.leb_le in Hi1, Hj1. apply Z.ltb_lt in Hi2, Hj2.
    rewrite store_cell_indexable by (done || split; simpl; lia).
    rewrite bind_ret, !Z.mod_small by lia.
    destruct (IH (set_cell g (Z.to_nat i) (Z.to_nat j) (lit "W")))
      as (g' & Hrun & Hg' & Hcell); [by apply shape5_set_cell|].
    exists g'. split_and!; [done..|].
    intros r c Hr Hc. rewrite Hcell by done. simpl existsb.
    rewrite cell_set_cell by (done || lia).
    destruct (existsb (wall_hits gs r c) ws); [by rewrite orb_true_r|].
    rewrite orb_false_r. unfold wall_hits. rewrite Hp. simpl fst. simpl snd.
    case_bool_decide as Hrc.
    + destruct Hrc as [<- <-]. rewrite !Z2Nat.id by lia. by rewrite !Z.eqb_refl.
    + destruct (i =? Z.of_nat r) eqn:Hir; [|done].
      destruct (j =? Z.of_nat c) eqn:Hjc; [|done].
      apply Z.eqb_eq in Hir, Hjc. exfalso. apply Hrc. lia.
  - rewrite bind_ret. destruct (IH g Hg) as (g' & Hrun & Hg' & Hcell).
    exists g'. split_and!; [done..|].
    intros r c Hr Hc. rewrite Hcell by done. simpl existsb.
    replace (wall_hits gs r c wall) with false; [done|].
    symmetry. apply not_true_is_false. rewrite wall_hits_spec, Hp. intros [= -> ->].
    apply andb_false_iff in Hj as [Hj|Hj]; [apply Z.leb_gt in Hj | apply Z.ltb_ge in Hj]; lia.
  - rewrite bind_ret. destruct (IH g Hg) as (g' & Hrun & Hg' & Hcell).
    exists g'. split_and!; [done..|].
    intros r c Hr Hc. rewrite Hcell by done. simpl existsb.
    replace (wall_hits gs r c wall) with false; [done|].
    symmetry. apply not_true_is_false. rewrite wall_hits_spec, Hp. intros [= -> ->].
    apply andb_false_iff in Hi as [Hi|Hi]; [apply Z.leb_gt in Hi | apply Z.ltb_ge in Hi]; lia.
Qed.

End Snapshot.

(** ** The whole projection *)

Lemma store_center :
  store_cell (replicate 5 (replicate 5 blank)) (mret (PyInt center_x))
    (mret (PyInt center_y)) (lit "P") =
  mret (set_cell (replicate 5 (replicate 5 blank)) 2 2 (lit "P")).
Proof. reflexivity. Qed.

Lemma print_grid_output (g : grid) : print_grid g = (grid_lines g, Return tt).
Proof.
  unfold print_grid, grid_lines.
  assert (for_each g (fun row (_ : unit) => emit (Print (join blank row))) tt
          = ((fun row => Print (join blank row)) <$> g, Return tt)) as ->.
  { induction g as [|row g IH]; [done|]. by rewrite for_each_cons, bind_emit, IH. }
  by rewrite bind_value.
Qed.

Lemma process_game_state_renders (state : pyvalue) (g : grid) :
  renders state g -> process_game_state state = print_grid g.
Proof.
  unfold renders, process_game_state. intros ->. rewrite bind_ret.
  by rewrite print_grid_output.
Qed.

Lemma process_game_state_reports (state : pyvalue) (e : exn) :
  build_grid state = raise e -> is_Exception e = true ->
  process_game_state state = (error_report e, Return tt).
Proof.
  unfold process_game_state. intros -> He. rewrite bind_raise.
  unfold try_except, raise. by rewrite He.
Qed.

Lemma build_grid_snapshot (gs : GameState) :
  Forall (fun coin => indexable (project gs coin)) (coins gs) ->
  exists g, renders (snapshot gs) g /\ shape5 g /\
    forall r c, (r < 5)%nat -> (c < 5)%nat -> cell g r c = Some (expected_cell gs r c).
Proof.
  intros Hcoins. unfold renders, build_grid. cbv zeta.
  rewrite store_center, bind_ret.
  change (py_get (snapshot gs) (lit "coins") (PyList []))
    with (mret (M := M) (PyList (coordinate_value <$> coins gs))).
  rewrite bind_ret. change (py_iter (PyList ?l)) with (mret (M := M) l).
  rewrite bind_ret.
  destruct (coin_pass gs (coins gs) (set_cell (replicate 5 (replicate 5 blank)) 2 2 (lit "P")))
    as (g1 & -> & Hg1 & Hcell1); [by apply shape5_set_cell, shape5_initial|done|].
  rewrite bind_ret.
  change (py_get (snapshot gs) (lit "walls") (PyList []))
    with (mret (M := M) (PyList (coordinate_value <$> walls gs))).
  rewrite bind_ret. change (py_iter (PyList ?l)) with (mret (M := M) l).
  rewrite bind_ret.
  destruct (wall_pass gs (walls gs) g1 Hg1) as (g2 & -> & Hg2 & Hcell2).
  exists g2. split_and!; [done..|].
  intros r c Hr Hc. rewrite Hcell2, Hcell1 by done. unfold expected_cell.
  destruct (existsb (wall_hits gs r c) (walls gs)); [done|].
  destruct (existsb (coin_hits gs r c) (coins gs)); [done|].
  rewrite cell_set_cell by (apply shape5_initial || lia).
  do 5 (destruct r as [|r]; [do 5 (destruct c as [|c]; [reflexivity|]); lia|]). lia.
Qed.

Lemma build_grid_snapshot_aborts (gs : GameState) :
  Exists (fun coin => ~ indexable (project gs coin)) (coins gs) ->
  build_grid (snapshot gs) = raise IndexError.
Proof.
  intros Hcoins. unfold build_grid. cbv zeta.
  rewrite store_center, bind_ret.
  change (py_get (snapshot gs) (lit "coins") (PyList []))
    with (mret (M := M) (PyList (coordinate_value <$> coins gs))).
  rewrite bind_ret. change (py_iter (PyList ?l)) with (mret (M := M) l).
  rewrite bind_ret.
  rewrite coin_pass_aborts; [done| |done].
  by apply shape5_set_cell, shape5_initial.
Qed.

(** ** Every failure of the projection is an [Exception] *)

Lemma guarded_ret {A} (P : A -> Prop) (a : A) : P a -> guarded P (mret a).
Proof. done. Qed.

Lemma guarded_raise {A} (P : A -> Prop) (e : exn) :
  is_Exception e = true -> guarded P (raise e).
Proof. done. Qed.

Lemma guarded_bind {A B} (Q : A -> Prop) (P : B -> Prop) (m : M A) (k : A -> M B) :
  guarded Q m -> (forall a, Q a -> guarded P (k a)) -> guarded P (m ≫= k).
Proof.
  intros Hm Hk. destruct m as [[|ev log] [a|e]]; try done.
  change (([], Return a) : M A) with (mret (M := M) a). rewrite bind_ret. by apply Hk.
Qed.

Lemma guarded_weaken {A} (P Q : A -> Prop) (m : M A) :
  guarded P m -> (forall a, P a -> Q a) -> guarded Q m.
Proof. intros Hm HPQ. destruct m as [[|ev log] [a|e]]; try done. by apply HPQ. Qed.

Create HintDb guarded discriminated.

(** One statement of a [do] block: the first computation is discharged
    from the hint database, its result is introduced. *)
Ltac guarded_step :=
  eapply guarded_bind; [solve [eauto with guarded]|]; intros ? ?.

Lemma guarded_seq_index (len : nat) (i : Z) :
  guarded (fun n => (n < len)%nat) (seq_index len i).
Proof.
  destruct (seq_index_result len i) as [(n & -> & Hn & _)| ->]; done.
Qed.

Lemma guarded_py_index (len : nat) (ix : pyvalue) :
  guarded (fun n => (n < len)%nat) (py_index len ix).
Proof. destruct ix; try done; apply guarded_seq_index. Qed.

Lemma guarded_py_get (obj : pyvalue) (key : str) (dflt : pyvalue) :
  guarded anything (py_get obj key dflt).
Proof. by destruct obj. Qed.

Lemma guarded_py_iter (obj : pyvalue) : guarded anything (py_iter obj).
Proof. by destruct obj. Qed.

#[local] Hint Resolve guarded_py_index guarded_py_get guarded_py_iter : guarded.

Lemma guarded_py_unpack2 (obj : pyvalue) : guarded anything (py_unpack2 obj).
Proof.
  unfold py_unpack2. guarded_step.
  by match goal with items : list pyvalue |- _ =>
    destruct items as [|x [|y [|z items]]] end.
Qed.

Lemma guarded_py_subscript (obj key : pyvalue) : guarded anything (py_subscript obj key).
Proof.
  destruct obj as [| | | | s | l | d]; try done.
  - simpl. guarded_step.
    by match goal with n : nat |- _ => destruct (s !! n) end.
  - simpl. guarded_step.
    by match goal with n : nat |- _ => destruct (l !! n) end.
  - destruct key as [| | | | k | |]; try done.
    simpl. by destruct (dict_lookup d k).
Qed.

Lemma guarded_float_of_int (z : Z) : guarded anything (float_of_int z).
Proof. unfold float_of_int. by destruct (SpecFloat.binary_normalize _ _ _ _ _). Qed.

Lemma guarded_to_float (n : number) : guarded anything (to_float n).
Proof. destruct n; [apply guarded_float_of_int | done]. Qed.

#[local] Hint Resolve guarded_py_unpack2 guarded_py_subscript guarded_float_of_int
  guarded_to_float : guarded.

Lemma guarded_py_sub (a b : pyvalue) : guarded is_numeric (py_sub a b).
Proof.
  assert (Hfloat : forall x y,
    guarded is_numeric (fx ← to_float x; fy ← to_float y;
                        mret (PyFloat (SpecFloat.SFsub prec emax fx fy)))).
  { intros x y. by do 2 guarded_step. }
  unfold py_sub.
  destruct (as_number a) as [[x|fx]|]; destruct (as_number b) as [[y|fy]|];
    try done; apply Hfloat.
Qed.

Lemma guarded_py_add_int (a : pyvalue) (k : Z) : guarded is_numeric (py_add_int a k).
Proof.
  unfold py_add_int. destruct (as_number a) as [[x|f]|]; try done.
  by guarded_step.
Qed.

Lemma guarded_py_between (lo hi : Z) (a : pyvalue) : guarded anything (py_between lo a hi).
Proof.
  unfold py_between. destruct (as_number a) as [[x|f]|]; try done.
  by do 2 guarded_step.
Qed.

#[local] Hint Resolve guarded_py_sub guarded_py_add_int guarded_py_between : guarded.

Lemma guarded_relative (state v : pyvalue) (axis center : Z) :
  guarded is_numeric (relative state v axis center).
Proof. unfold relative. do 3 guarded_step. apply guarded_py_add_int. Qed.

Lemma guarded_relative_any (state v : pyvalue) (axis center : Z) :
  guarded anything (relative state v axis center).
Proof. eapply guarded_weaken; [apply guarded_relative|done]. Qed.

#[local] Hint Resolve guarded_relative guarded_relative_any : guarded.

(** A store keeps the grid 5x5, whatever the index expressions do. *)
Lemma guarded_store_cell (g : grid) (a b : M pyvalue) (mark : str) :
  shape5 g -> guarded anything a -> guarded anything b ->
  guarded shape5 (store_cell g a b mark).
Proof.
  intros Hg Ha Hb. unfold store_cell.
  eapply guarded_bind; [apply Ha|]. intros va _.
  eapply guarded_bind; [apply guarded_py_index|]. intros i Hi.
  destruct (g !! i) as [row|] eqn:Hrow; [|done].
  eapply guarded_bind; [apply Hb|]. intros vb _.
  eapply guarded_bind; [apply guarded_py_index|]. intros j Hj.
  apply guarded_ret. destruct Hg as [Hlen Hrows]. split; [by rewrite length_insert|].
  apply Forall_insert; [done|].
  rewrite length_insert. by apply (Forall_lookup_1 _ _ _ _ Hrows Hrow).
Qed.

Lemma guarded_place_coin (state coin : pyvalue) (g : grid) :
  shape5 g -> guarded shape5 (place_coin state coin g).
Proof.
  intros Hg. unfold place_coin. guarded_step.
  match goal with xy : pyvalue * pyvalue |- _ => destruct xy as [x y] end.
  apply guarded_store_cell; eauto with guarded.
Qed.

Lemma guarded_place_wall (state wall : pyvalue) (g : grid) :
  shape5 g -> guarded shape5 (place_wall state wall g).
Proof.
  intros Hg. unfold place_wall. guarded_step.
  match goal with xy : pyvalue * pyvalue |- _ => destruct xy as [x y] end.
  do 2 guarded_step. match goal with in_x : bool |- _ => destruct in_x end; [|done].
  do 2 guarded_step. match goal with in_y : bool |- _ => destruct in_y end; [|done].
  apply guarded_store_cell; eauto with guarded.
Qed.

Lemma guarded_for_each {A S} (P : S -> Prop) (xs : list A) (body : A -> S -> M S) (acc : S) :
  (forall x s, P s -> guarded P (body x s)) -> P acc -> guarded P (for_each xs body acc).
Proof.
  intros Hbody. revert acc. induction xs as [|x xs IH]; intros acc Hacc; [done|].
  rewrite for_each_cons. eapply guarded_bind; [by apply Hbody|]. apply IH.
Qed.

Lemma guarded_build_grid (state : pyvalue) : guarded shape5 (build_grid state).
Proof.
  unfold build_grid. cbv zeta. rewrite store_center, bind_ret.
  do 2 guarded_step.
  eapply guarded_bind.
  { apply guarded_for_each; [intros; by apply guarded_place_coin|].
    apply shape5_set_cell, shape5_initial. }
  intros g Hg. do 2 guarded_step.
  apply guarded_for_each; [intros; by apply guarded_place_wall|done].
Qed.

(** ** Totality and determinism of the projection *)

(** The projection always returns: it prints the grid it built, or the
    report of the exception that stopped the [try] block. *)
Lemma process_game_state_outcome (state : pyvalue) :
  exists out, process_game_state state = (out, Return tt) /\
    ((exists g, shape5 g /\ renders state g /\ out = grid_lines g) \/
     (exists e, build_grid state = raise e /\ is_Exception e = true /\
                out = error_report e)).
Proof.
  pose proof (guarded_build_grid state) as Hguard.
  destruct (build_grid state) as [[|ev log] [g|e]] eqn:Hbuild; try done.
  - exists (grid_lines g). split.
    + rewrite (process_game_state_renders state g Hbuild). apply print_grid_output.
    + left. by exists g.
  - exists (error_report e). split.
    + by apply process_game_state_reports.
    + right. by exists e.
Qed.

(** C9: [process_game_state] is total over arbitrary decoded values: for
    every input it returns normally to its caller, and its output is either
    the complete rendering of a 5x5 grid or the single error report of the
    catch-all handler. *)
Theorem process_game_state_total (state : pyvalue) :
  exists out, process_game_state state = (out, Return tt) /\
    ((exists g, shape5 g /\ renders state g /\ out = grid_lines g) \/
     (exists e, build_grid state = raise e /\ is_Exception e = true /\
                out = error_report e)).
Proof. apply process_game_state_outcome. Qed.

(** The three failures the catch-all is there for: a value that is not a
    dict, a dict without [currentPosition], a coin that is not a pair. *)
Example not_a_dict_is_reported :
  process_game_state (PyList []) = (error_report AttributeError, Return tt).
Proof. reflexivity. Qed.

Example missing_position_is_reported :
  process_game_state (PyDict [(lit "coins", PyList [PyList [PyInt 1; PyInt 1]])]) =
    (error_report (KeyError (PyStr (lit "currentPosition"))), Return tt).
Proof. reflexivity. Qed.

Example short_coin_is_reported :
  process_game_state (PyDict [(lit "currentPosition", PyList [PyInt 0; PyInt 0]);
                              (lit "coins", PyList [PyList [PyInt 1]])]) =
    (error_report ValueError, Return tt).
Proof. reflexivity. Qed.

(** Two renderings in a row write the output of one rendering followed by
    the very same output again. *)
Lemma process_game_state_twice (state : pyvalue) :
  (process_game_state state ≫= fun _ => process_game_state state) =
    (fst (process_game_state state) ++ fst (process_game_state state), Return tt).
Proof.
  destruct (process_game_state_outcome state) as (out & Hout & _).
  by rewrite Hout, bind_value.
Qed.

(** ** Which entity a cell shows *)

Lemma wall_hits_exists (gs : GameState) (r c : nat) :
  existsb (wall_hits gs r c) (walls gs) = true <->
  exists wall, In wall (walls gs) /\ project gs wall = (Z.of_nat r, Z.of_nat c).
Proof.
  rewrite existsb_exists. split; intros (wall & Hin & Hhit); exists wall;
    (split; [done|]); by apply wall_hits_spec.
Qed.

Lemma coin_hits_exists (gs : GameState) (r c : nat) :
  existsb (coin_hits gs r c) (coins gs) = true <->
  exists coin, In coin (coins gs) /\
    fst (project gs coin) mod 5 = Z.of_nat r /\ snd (project gs coin) mod 5 = Z.of_nat c.
Proof.
  rewrite existsb_exists. split; intros (coin & Hin & Hhit); exists coin;
    (split; [done|]); by apply coin_hits_spec.
Qed.

(** The coin pass either completes, and the grid is as [expected_cell]
    says, or it stops at the first coin outside the index range. *)
Lemma rendering_cases (gs : GameState) :
  (Forall (fun coin => indexable (project gs coin)) (coins gs) /\
   exists g, renders (snapshot gs) g /\ shape5 g /\
     forall r c, (r < 5)%nat -> (c < 5)%nat -> cell g r c = Some (expected_cell gs r c)) \/
  (Exists (fun coin => ~ indexable (project gs coin)) (coins gs) /\
   build_grid (snapshot gs) = raise IndexError).
Proof.
  destruct (decide (Forall (fun coin => indexable (project gs coin)) (coins gs)))
    as [Hall|Hnot].
  - left. split; [done|]. by apply build_grid_snapshot.
  - right. apply not_Forall_Exists in Hnot; [|apply _].
    split; [done|]. by apply build_grid_snapshot_aborts.
Qed.

Lemma renders_unique (state : pyvalue) (g g' : grid) :
  renders state g -> renders state g' -> g = g'.
Proof. unfold renders. intros -> [= ->]. done. Qed.

(** What a rendered grid of a snapshot shows: the cells are as
    [expected_cell] says. *)
Lemma rendered_cells (gs : GameState) (g : grid) (r c : nat) :
  renders (snapshot gs) g -> (r < 5)%nat -> (c < 5)%nat ->
  cell g r c = Some (expected_cell gs r c).
Proof.
  intros Hg Hr Hc.
  destruct (rendering_cases gs) as [(_ & g' & Hg' & _ & Hcells)|[_ Habort]].
  - rewrite (renders_unique _ _ _ Hg Hg'). by apply Hcells.
  - unfold renders in Hg. by rewrite Habort in Hg.
Qed.

(** ** Claims about the rendered grid *)

(** The basic scenario renders as the specification says: the player at
    the centre, the coin to its right, the wall above it. *)
Example basic_scene_rendering :
  process_game_state (snapshot basic_scene) =
    ([ Print (lit "         ");
       Print (lit "    W    ");
       Print (lit "    P C  ");
       Print (lit "         ");
       Print (lit "         ");
       Print newline ], Return tt).
Proof. reflexivity. Qed.

(** C1 (the code departs from it): the specification's own scenario.  A
    coin at [10,10] seen from [0,0] projects to [(12,12)]; the unguarded
    coin pass indexes the grid there, the [IndexError] is caught, and the
    output is the error report: no grid is rendered at all. *)
Theorem far_coin_aborts_rendering :
  project far_coin (10, 10) = (12, 12) /\
  build_grid (snapshot far_coin) = raise IndexError /\
  process_game_state (snapshot far_coin) = (error_report IndexError, Return tt).
Proof. split_and!; reflexivity. Qed.

(** The wall pass is a viewport: a rendered cell shows a wall exactly when
    some wall projects onto it. *)
Lemma walls_respect_view (gs : GameState) (g : grid) (r c : nat) :
  renders (snapshot gs) g -> (r < 5)%nat -> (c < 5)%nat ->
  cell g r c = Some (lit "W") <->
  exists wall, In wall (walls gs) /\ project gs wall = (Z.of_nat r, Z.of_nat c).
Proof.
  intros Hg Hr Hc. rewrite (rendered_cells gs g r c Hg Hr Hc), <- wall_hits_exists.
  unfold expected_cell.
  destruct (existsb (wall_hits gs r c) (walls gs)); [done|].
  split; [|done].
  destruct (existsb (coin_hits gs r c) (coins gs)); [done|].
  by case_bool_decide.
Qed.

(** C2, refuted as stated: with a coin on the player's own cell the
    rendered centre cell holds the coin marker, not ['P']. *)
Lemma coin_replaces_player_marker :
  exists g, renders (snapshot coin_on_player) g /\
    process_game_state (snapshot coin_on_player) = (grid_lines g, Return tt) /\
    cell g 2 2 = Some (lit "C") /\ cell g 2 2 <> Some (lit "P").
Proof.
  eexists. split; [reflexivity|]. split_and!; [reflexivity|reflexivity|].
  by vm_compute.
Qed.

Lemma coin_hits_in_view (gs : GameState) (r c : nat) (coin : Coordinate) :
  in_view (project gs coin) ->
  coin_hits gs r c coin = true <-> project gs coin = (Z.of_nat r, Z.of_nat c).
Proof.
  intros [Hx Hy]. rewrite coin_hits_spec.
  destruct (project gs coin) as [i j]. simpl in *.
  rewrite !Z.mod_small by lia. split; [by intros [-> ->]|by intros [= -> ->]].
Qed.

(** C2, amended: when every coin of the snapshot is in view, a grid is
    rendered and its centre cell holds the last marker drawn there: ['W']
    if a wall projects to [(2,2)], else ['C'] if a coin does, and the
    player marker ['P'] exactly when neither does. *)
Theorem center_cell (gs : GameState) :
  Forall (fun coin => in_view (project gs coin)) (coins gs) ->
  exists g, renders (snapshot gs) g /\
    process_game_state (snapshot gs) = (grid_lines g, Return tt) /\
    let wall_there := exists wall, In wall (walls gs) /\ project gs wall = (2, 2) in
    let coin_there := exists coin, In coin (coins gs) /\ project gs coin = (2, 2) in
    (wall_there -> cell g 2 2 = Some (lit "W")) /\
    (~ wall_there -> coin_there -> cell g 2 2 = Some (lit "C")) /\
    (~ wall_there -> ~ coin_there -> cell g 2 2 = Some (lit "P")).
Proof.
  intros Hview.
  destruct (build_grid_snapshot gs) as (g & Hg & _ & Hcells).
  { eapply Forall_impl; [done|]. intros coin [Hx Hy]. split; lia. }
  exists g. split; [done|]. split.
  { by rewrite (process_game_state_renders _ _ Hg), print_grid_output. }
  cbv zeta. rewrite (Hcells 2%nat 2%nat) by lia. unfold expected_cell.
  pose proof (wall_hits_exists gs 2 2) as Hwalls. simpl Z.of_nat in Hwalls.
  assert (Hcoins : existsb (coin_hits gs 2 2) (coins gs) = true <->
                   exists coin, In coin (coins gs) /\ project gs coin = (2, 2)).
  { rewrite existsb_exists. rewrite Forall_forall in Hview.
    split; intros (coin & Hin & Hhit); exists coin; (split; [done|]);
      apply (coin_hits_in_view gs 2 2 coin); try done;
      apply Hview; by apply list_elem_of_In. }
  destruct (existsb (wall_hits gs 2 2) (walls gs)).
  { split_and!; [done|intros Hno; destruct Hno; by apply Hwalls..]. }
  destruct (existsb (coin_hits gs 2 2) (coins gs)).
  { split_and!; [intros Hw; by apply Hwalls in Hw|done|].
    intros _ Hno. destruct Hno. by apply Hcoins. }
  split_and!; [intros Hw; by apply Hwalls in Hw| |done].
  intros _ Hc. by apply Hcoins in Hc.
Qed.

Lemma center_cell_witness :
  Forall (fun coin => in_view (project coin_on_player coin)) (coins coin_on_player) /\
  exists g, renders (snapshot coin_on_player) g /\
    process_game_state (snapshot coin_on_player) = (grid_lines g, Return tt) /\
    let wall_there :=
      exists wall, In wall (walls coin_on_player) /\ project coin_on_player wall = (2, 2) in
    let coin_there :=
      exists coin, In coin (coins coin_on_player) /\ project coin_on_player coin = (2, 2) in
    (wall_there -> cell g 2 2 = Some (lit "W")) /\
    (~ wall_there -> coin_there -> cell g 2 2 = Some (lit "C")) /\
    (~ wall_there -> ~ coin_there -> cell g 2 2 = Some (lit "P")).
Proof.
  assert (Hview : Forall (fun coin => in_view (project coin_on_player coin))
                    (coins coin_on_player)).
  { apply Forall_cons_2; [|apply Forall_nil_2].
    split; cbn; unfold center_x, center_y; lia. }
  split; [exact Hview | exact (center_cell coin_on_player Hview)].
Defined.

(** C6: when a coin and a wall project to the same cell of the view, a
    grid is rendered as soon as every coin is within the index range, and
    whenever a grid is rendered that cell holds the wall marker. *)
Theorem wall_overwrites_coin (gs : GameState) (coin wall : Coordinate) (r c : nat) :
  In coin (coins gs) -> In wall (walls gs) ->
  project gs coin = (Z.of_nat r, Z.of_nat c) ->
  project gs wall = (Z.of_nat r, Z.of_nat c) ->
  (r < 5)%nat -> (c < 5)%nat ->
  (Forall (fun coin => indexable (project gs coin)) (coins gs) ->
   exists g, renders (snapshot gs) g) /\
  (forall g, renders (snapshot gs) g ->
     process_game_state (snapshot gs) = (grid_lines g, Return tt) /\
     cell g r c = Some (lit "W")).
Proof.
  intros Hcoin Hwall Hpc Hpw Hr Hc. split.
  - intros Hall. destruct (build_grid_snapshot gs Hall) as (g & Hg & _). by exists g.
  - intros g Hg. split.
    { by rewrite (process_game_state_renders _ _ Hg), print_grid_output. }
    apply (walls_respect_view gs g r c Hg Hr Hc). by exists wall.
Qed.

Lemma wall_overwrites_coin_witness :
  In (3, 4) (coins coin_under_wall) /\ In (3, 4) (walls coin_under_wall) /\
  project coin_under_wall (3, 4) = (Z.of_nat 2, Z.of_nat 3) /\
  (2 < 5)%nat /\ (3 < 5)%nat /\
  (Forall (fun coin => indexable (project coin_under_wall coin)) (coins coin_under_wall) ->
   exists g, renders (snapshot coin_under_wall) g) /\
  (forall g, renders (snapshot coin_under_wall) g ->
     process_game_state (snapshot coin_under_wall) = (grid_lines g, Return tt) /\
     cell g 2 3 = Some (lit "W")).
Proof.
  assert (Hin : In (3, 4) [(3, 4)]) by (left; reflexivity).
  split_and!; [exact Hin | exact Hin | reflexivity | lia | lia | |];
    apply (wall_overwrites_coin coin_under_wall (3, 4) (3, 4) 2 3);
    (exact Hin || reflexivity || lia).
Defined.

(** C10: a coin with a projected coordinate in [-5, 0) (the other one in
    [-5, 5)) is not omitted: the coin pass stores ['C'] through Python's
    negative index, at row and column taken modulo 5; the rendered grid
    shows it there unless a wall is drawn on that cell.  The wall pass
    skips an entity at the same coordinates. *)
Theorem coin_wraps_around (gs : GameState) (coin : Coordinate) :
  let p := project gs coin in
  let r := Z.to_nat (fst p mod 5) in
  let c := Z.to_nat (snd p mod 5) in
  In coin (coins gs) ->
  (-5 <= fst p < 0 /\ -5 <= snd p < 5) \/ (-5 <= snd p < 0 /\ -5 <= fst p < 5) ->
  (forall g, shape5 g ->
     place_coin (snapshot gs) (coordinate_value coin) g = mret (set_cell g r c (lit "C")) /\
     cell (set_cell g r c (lit "C")) r c = Some (lit "C")) /\
  (forall g, place_wall (snapshot gs) (coordinate_value coin) g = mret g) /\
  (Forall (fun coin => indexable (project gs coin)) (coins gs) ->
   exists g, renders (snapshot gs) g /\
     process_game_state (snapshot gs) = (grid_lines g, Return tt) /\
     ((forall wall, In wall (walls gs) -> project gs wall <> (Z.of_nat r, Z.of_nat c)) ->
      cell g r c = Some (lit "C"))).
Proof.
  intros p r c Hin Hneg.
  assert (Hidx : indexable p) by (split; lia).
  pose proof (Z.mod_pos_bound (fst p) 5) as Hr.
  pose proof (Z.mod_pos_bound (snd p) 5) as Hc.
  split_and!.
  - intros g Hg. split.
    + rewrite place_coin_snapshot. fold p. destruct p as [i j] eqn:Hp.
      by rewrite store_cell_indexable.
    + rewrite cell_set_cell by (done || lia). by rewrite bool_decide_eq_true_2.
  - intros g. rewrite place_wall_snapshot. cbv zeta. fold p.
    destruct Hneg as [[Hx _]|[Hy _]].
    + replace (0 <=? fst p) with false by (symmetry; apply Z.leb_gt; lia). done.
    + destruct ((0 <=? fst p) && (fst p <? 5)); [|done].
      replace (0 <=? snd p) with false by (symmetry; apply Z.leb_gt; lia). done.
  - intros Hall. destruct (build_grid_snapshot gs Hall) as (g & Hg & _ & Hcells).
    exists g. split; [done|]. split.
    { by rewrite (process_game_state_renders _ _ Hg), print_grid_output. }
    intros Hwalls. rewrite Hcells by lia. unfold expected_cell.
    destruct (existsb (wall_hits gs r c) (walls gs)) eqn:Hw.
    { apply wall_hits_exists in Hw as (wall & Hwin & Hwp). by destruct (Hwalls wall Hwin). }
    replace (existsb (coin_hits gs r c) (coins gs)) with true; [done|].
    symmetry. apply coin_hits_exists. exists coin. split; [done|].
    fold p. unfold r, c. lia.
Qed.

Lemma coin_wraps_around_witness :
  In (-3, 0) (coins coin_behind) /\
  ((-5 <= fst (project coin_behind (-3, 0)) < 0 /\
    -5 <= snd (project coin_behind (-3, 0)) < 5) \/
   (-5 <= snd (project coin_behind (-3, 0)) < 0 /\
    -5 <= fst (project coin_behind (-3, 0)) < 5)) /\
  (forall g, shape5 g ->
     place_coin (snapshot coin_behind) (coordinate_value (-3, 0)) g
       = mret (set_cell g 4 2 (lit "C")) /\
     cell (set_cell g 4 2 (lit "C")) 4 2 = Some (lit "C")) /\
  (forall g, place_wall (snapshot coin_behind) (coordinate_value (-3, 0)) g = mret g) /\
  (Forall (fun coin => indexable (project coin_behind coin)) (coins coin_behind) ->
   exists g, renders (snapshot coin_behind) g /\
     process_game_state (snapshot coin_behind) = (grid_lines g, Return tt) /\
     ((forall wall, In wall (walls coin_behind) ->
         project coin_behind wall <> (Z.of_nat 4, Z.of_nat 2)) ->
      cell g 4 2 = Some (lit "C"))).
Proof.
  assert (Hin : In (-3, 0) (coins coin_behind)) by (left; reflexivity).
  assert (Hneg : (-5 <= fst (project coin_behind (-3, 0)) < 0 /\
                  -5 <= snd (project coin_behind (-3, 0)) < 5) \/
                 (-5 <= snd (project coin_behind (-3, 0)) < 0 /\
                  -5 <= fst (project coin_behind (-3, 0)) < 5)).
  { left. cbn. unfold center_x, center_y. lia. }
  split; [exact Hin|]. split; [exact Hneg|].
  exact (coin_wraps_around coin_behind (-3, 0) Hin Hneg).
Defined.

(** ** Substring search *)

Lemma contains_cons (n : str) (c : N) (h : str) :
  contains n (c :: h) = starts_with n (c :: h) || contains n h.
Proof. reflexivity. Qed.

Lemma contains_app_r (n a b : str) :
  contains n b = true -> contains n (a ++ b) = true.
Proof.
  intros Hb. induction a as [|c a IH]; [done|].
  rewrite <- app_comm_cons, contains_cons, IH. apply orb_true_r.
Qed.

Lemma starts_with_before (n m s : str) (c : N) :
  avoids c n = true -> starts_with n (m ++ c :: s) = starts_with n m.
Proof.
  revert m. induction n as [|x n IH]; intros m Hn; [by destruct m|].
  simpl in Hn. apply andb_true_iff in Hn as [Hx Hn].
  destruct m as [|y m]; simpl.
  - apply negb_true_iff in Hx. by rewrite Hx.
  - by rewrite IH.
Qed.

(** A separator that does not occur in [n] splits the search. *)
Lemma contains_app_sep (n l s : str) (c : N) :
  n <> [] -> avoids c n = true ->
  contains n (l ++ c :: s) = contains n l || contains n s.
Proof.
  intros Hne Hc. induction l as [|y l IH].
  - destruct n as [|x n]; [done|]. simpl in Hc.
    apply andb_true_iff in Hc as [Hx _]. apply negb_true_iff in Hx.
    simpl. by rewrite Hx.
  - rewrite <- app_comm_cons, !contains_cons, IH.
    rewrite app_comm_cons, starts_with_before by done. by rewrite orb_assoc.
Qed.

Lemma state_topic_contains (lobby_name player_name : str) :
  contains (lit "game_state") (state_topic lobby_name player_name) = true.
Proof. unfold state_topic. by do 4 apply contains_app_r. Qed.

Lemma nested_topic_contains (lobby_name player_name extra : str) :
  contains (lit "game_state") (nested_state_topic lobby_name player_name extra) = true.
Proof. unfold nested_state_topic. by do 6 apply contains_app_r. Qed.

Lemma lobby_topic_contains (n lobby_name : str) :
  n = lit "game_state" \/ n = lit "scores" ->
  contains n (lobby_topic lobby_name) = contains n lobby_name.
Proof.
  intros Hn. unfold lobby_topic.
  transitivity (contains n (lobby_name ++ lit "/lobby")).
  { by destruct Hn as [-> | ->]. }
  change (lit "/lobby") with (47%N :: lit "lobby").
  rewrite contains_app_sep; [|by destruct Hn as [-> | ->]..].
  replace (contains n (lit "lobby")) with false by (by destruct Hn as [-> | ->]).
  apply orb_false_r.
Qed.

(** ** The message callback *)

Section Callback.
Context `{Runtime}.

Lemma on_message_announces (msg : MQTTMessage) :
  on_message msg =
    (announce msg, Return tt) ≫= fun _ =>
      text ← bytes_decode (payload msg);
      if contains (lit "game_state") (topic msg) then
        lift (json_loads text) ≫= process_game_state
      else if contains (lit "scores") (topic msg) then
        emit (Print (lit "Scores: " ++ text))
      else emit (Print (lit "Message: " ++ text)).
Proof.
  unfold on_message. set (rest := bytes_decode _ ≫= _).
  rewrite !bind_emit, bind_value. reflexivity.
Qed.

Lemma on_message_decoded (msg : MQTTMessage) (text : str) :
  utf8_decode (Byte.to_N <$> payload msg) = Some text ->
  on_message msg =
    (announce msg, Return tt) ≫= fun _ =>
      if contains (lit "game_state") (topic msg) then
        lift (json_loads text) ≫= process_game_state
      else if contains (lit "scores") (topic msg) then
        emit (Print (lit "Scores: " ++ text))
      else emit (Print (lit "Message: " ++ text)).
Proof.
  intros Htext. rewrite on_message_announces. unfold bytes_decode.
  rewrite Htext. by rewrite bind_ret.
Qed.

Lemma on_message_undecodable (msg : MQTTMessage) :
  utf8_decode (Byte.to_N <$> payload msg) = None ->
  on_message msg = (announce msg, Raise UnicodeDecodeError).
Proof.
  intros Htext. rewrite on_message_announces. unfold bytes_decode.
  rewrite Htext, bind_raise, bind_value. unfold raise. cbn [fst snd].
  by rewrite app_nil_r.
Qed.

(** C3 (the code departs from it): on a [game_state] topic a payload that
    is not valid UTF-8, or that [json.loads] rejects, ends the callback
    with that exception after the two announcement lines; nothing reports
    or catches it.  Only a payload that parses is covered by the catch-all
    of [process_game_state], whatever its shape. *)
Theorem on_message_parse_error_propagates (msg : MQTTMessage) :
  contains (lit "game_state") (topic msg) = true ->
  (utf8_decode (Byte.to_N <$> payload msg) = None ->
   on_message msg = (announce msg, Raise UnicodeDecodeError)) /\
  (forall text e,
     utf8_decode (Byte.to_N <$> payload msg) = Some text ->
     json_loads text = Raise e ->
     on_message msg = (announce msg, Raise e)) /\
  (forall text doc,
     utf8_decode (Byte.to_N <$> payload msg) = Some text ->
     json_loads text = Return doc ->
     on_message msg = (announce msg ++ fst (process_game_state doc), Return tt)).
Proof.
  intros Htopic. split_and!.
  - apply on_message_undecodable.
  - intros text e Htext Hload.
    rewrite (on_message_decoded msg text Htext), Htopic, Hload, bind_value.
    unfold lift. change (([], Raise e) : M pyvalue) with (raise (A := pyvalue) e).
    rewrite bind_raise. unfold raise. cbn [fst snd]. by rewrite app_nil_r.
  - intros text doc Htext Hload.
    rewrite (on_message_decoded msg text Htext), Htopic, Hload, bind_value.
    unfold lift. change (([], Return doc) : M pyvalue) with (mret (M := M) doc).
    rewrite bind_ret.
    by destruct (process_game_state_outcome doc) as (out & -> & _).
Qed.

(** The callback itself tests substrings.  A topic that contains
    [game_state] goes to the projection, else one that contains [scores]
    to the score line, else to the generic line. *)
Lemma on_message_routes_by_substring (msg : MQTTMessage) (text : str) :
  utf8_decode (Byte.to_N <$> payload msg) = Some text ->
  let to_projection :=
    (announce msg, Return tt) ≫= fun _ => lift (json_loads text) ≫= process_game_state in
  let to_scores : M unit := (announce msg ++ [Print (lit "Scores: " ++ text)], Return tt) in
  let to_generic : M unit := (announce msg ++ [Print (lit "Message: " ++ text)], Return tt) in
  (contains (lit "game_state") (topic msg) = true -> on_message msg = to_projection) /\
  (contains (lit "game_state") (topic msg) = false ->
   contains (lit "scores") (topic msg) = true -> on_message msg = to_scores) /\
  (contains (lit "game_state") (topic msg) = false ->
   contains (lit "scores") (topic msg) = false -> on_message msg = to_generic) /\
  (forall L P, topic msg = state_topic L P -> on_message msg = to_projection) /\
  (forall L P Q, topic msg = nested_state_topic L P Q -> on_message msg = to_projection) /\
  (forall L, topic msg = lobby_topic L ->
     contains (lit "game_state") L = false -> contains (lit "scores") L = false ->
     on_message msg = to_generic).
Proof.
  intros Htext to_projection to_scores to_generic.
  assert (Hstate : contains (lit "game_state") (topic msg) = true ->
                   on_message msg = to_projection).
  { intros Hin. by rewrite (on_message_decoded msg text Htext), Hin. }
  assert (Hgeneric : contains (lit "game_state") (topic msg) = false ->
                     contains (lit "scores") (topic msg) = false ->
                     on_message msg = to_generic).
  { intros Hno Hno'. by rewrite (on_message_decoded msg text Htext), Hno, Hno'. }
  split_and!; [done| |done|..].
  - intros Hno Hin. by rewrite (on_message_decoded msg text Htext), Hno, Hin.
  - intros L P Htopic. apply Hstate. rewrite Htopic. apply state_topic_contains.
  - intros L P Q Htopic. apply Hstate. rewrite Htopic. apply nested_topic_contains.
  - intros L Htopic Hno Hno'.
    apply Hgeneric; rewrite Htopic, lobby_topic_contains; auto.
Qed.

End Callback.

Lemma on_message_parse_error_propagates_witness :
  contains (lit "game_state") (topic garbled_state_message) = true /\
  @on_message example_runtime garbled_state_message =
    (announce garbled_state_message, Raise JSONDecodeError).
Proof.
  split; [reflexivity|].
  apply (@on_message_parse_error_propagates example_runtime garbled_state_message
           eq_refl) with (text := lit "not json"); reflexivity.
Defined.

(** ** The input loop *)

Lemma str_eqb_eq (a b : str) : str_eqb a b = true <-> a = b.
Proof.
  revert b. induction a as [|x a IH]; intros [|y b]; simpl; try done.
  rewrite andb_true_iff, N.eqb_eq, IH. split; [by intros [-> ->]|by intros [= -> ->]].
Qed.

Lemma str_eqb_neq (a b : str) : str_eqb a b = false <-> a <> b.
Proof. rewrite <- str_eqb_eq. by destruct (str_eqb a b). Qed.

Lemma existsb_str_eqb (move : str) (names : list str) :
  existsb (str_eqb move) names = true <-> In move names.
Proof.
  rewrite existsb_exists. split.
  - intros (name & Hin & Heq). apply str_eqb_eq in Heq. by subst.
  - intros Hin. exists move. split; [done|]. by apply str_eqb_eq.
Qed.

Lemma try_except_after {A B} (log : list event) (a : A) (k : A -> M B)
    (catches : exn -> bool) (handler : exn -> M B) :
  try_except (((log, Return a) : M A) ≫= k) catches handler =
    ((log, Return a) : M A) ≫= fun x => try_except (k x) catches handler.
Proof.
  rewrite !bind_value. unfold try_except.
  destruct (k a) as [log1 [b|e]]; [done|]. cbn [fst snd].
  destruct (catches e); [|done].
  destruct (handler e) as [log2 r]. cbn [fst snd]. by rewrite app_assoc.
Qed.

Section InputLoop.
Context `{Runtime}.
Variables player_name lobby_name : str.

Lemma input_loop_line (token : str) (rest : list stdin_event) :
  input_loop player_name lobby_name (Line token :: rest) =
    (([Prompt (move_prompt player_name)], Return tt) : M unit) ≫= fun _ =>
      let move := str_upper token in
      if existsb (str_eqb move) [lit "UP"; lit "DOWN"; lit "LEFT"; lit "RIGHT"] then
        _ ← emit (Publish (move_topic lobby_name player_name) move);
        input_loop player_name lobby_name rest
      else if str_eqb move (lit "STOP") then
        _ ← emit (Publish (start_topic lobby_name) (lit "STOP"));
        mret Returned
      else
        _ ← emit (Print (lit "Invalid move. Please try again."));
        input_loop player_name lobby_name rest.
Proof.
  cbn [input_loop]. unfold input. rewrite bind_assoc, bind_emit, bind_value.
  cbn [fst snd]. by rewrite bind_ret.
Qed.

Lemma user_input_control_direction (token : str) (rest : list stdin_event) :
  In (str_upper token) [lit "UP"; lit "DOWN"; lit "LEFT"; lit "RIGHT"] ->
  user_input_control player_name lobby_name (Line token :: rest) =
    (([Prompt (move_prompt player_name);
       Publish (move_topic lobby_name player_name) (str_upper token)], Return tt) : M unit)
    ≫= fun _ => user_input_control player_name lobby_name rest.
Proof.
  intros Hmove. apply existsb_str_eqb in Hmove.
  unfold user_input_control. rewrite input_loop_line, try_except_after.
  cbv zeta. rewrite Hmove.
  change (emit ?ev) with (([ev], Return tt) : M unit).
  rewrite try_except_after. by rewrite !bind_value.
Qed.

Lemma user_input_control_stop (token : str) (rest : list stdin_event) :
  str_upper token = lit "STOP" ->
  user_input_control player_name lobby_name (Line token :: rest) =
    ([Prompt (move_prompt player_name);
      Publish (start_topic lobby_name) (lit "STOP")], Return Returned).
Proof.
  intros Hmove. unfold user_input_control.
  rewrite input_loop_line, try_except_after. cbv zeta. by rewrite Hmove.
Qed.

Lemma user_input_control_invalid (token : str) (rest : list stdin_event) :
  ~ In (str_upper token) [lit "UP"; lit "DOWN"; lit "LEFT"; lit "RIGHT"; lit "STOP"] ->
  user_input_control player_name lobby_name (Line token :: rest) =
    (([Prompt (move_prompt player_name);
       Print (lit "Invalid move. Please try again.")], Return tt) : M unit)
    ≫= fun _ => user_input_control player_name lobby_name rest.
Proof.
  intros Hmove.
  assert (Hdir : existsb (str_eqb (str_upper token))
                   [lit "UP"; lit "DOWN"; lit "LEFT"; lit "RIGHT"] = false).
  { apply not_true_is_false. rewrite existsb_str_eqb. intros Hin. apply Hmove.
    change (In (str_upper token)
              ([lit "UP"; lit "DOWN"; lit "LEFT"; lit "RIGHT"] ++ [lit "STOP"])).
    apply in_or_app. by left. }
  assert (Hstop : str_eqb (str_upper token) (lit "STOP") = false).
  { apply str_eqb_neq. intros Heq. apply Hmove. rewrite Heq. do 4 right. by left. }
  unfold user_input_control. rewrite input_loop_line, try_except_after.
  cbv zeta. rewrite Hdir, Hstop.
  change (emit ?ev) with (([ev], Return tt) : M unit).
  rewrite try_except_after. by rewrite !bind_value.
Qed.

(** Whatever is left on standard input, the loop first prompts. *)
Lemma user_input_control_prompts (stdin : list stdin_event) :
  exists out r,
    user_input_control player_name lobby_name stdin =
      (Prompt (move_prompt player_name) :: out, r).
Proof.
  unfold user_input_control.
  assert (exists out r, input_loop player_name lobby_name stdin =
            (Prompt (move_prompt player_name) :: out, r)) as (out & r & ->).
  { destruct stdin as [|ev rest].
    - by eexists _, _.
    - cbn [input_loop]. unfold input. rewrite bind_assoc, bind_emit. by eexists _, _. }
  unfold try_except. destruct r as [a|e]; [by eexists _, _|].
  destruct (is_KeyboardInterrupt e); [|by eexists _, _].
  destruct (_ ≫= _) as [log r]. by eexists _, _.
Qed.

End InputLoop.

Lemma start_topic_is_not_move_topic (lobby_name player_name : str) :
  start_topic lobby_name <> move_topic lobby_name player_name.
Proof.
  intros Heq. apply (f_equal last) in Heq. revert Heq.
  unfold start_topic, move_topic.
  change (lit "/start") with (lit "/star" ++ [116%N]).
  change (lit "/move") with (lit "/mov" ++ [101%N]).
  rewrite !app_assoc, !last_snoc. done.
Qed.

(** C5: the loop accepts exactly the five tokens, compared after
    upper-casing.  A direction is published on the topic
    [games/{lobby}/{player}/move] with the upper-cased name as payload and
    the loop goes on; [STOP] is published on [games/{lobby}/start] and ends
    the loop; any other token prints the rejection, publishes nothing, and
    the loop goes on.  Going on starts with the prompt again. *)
Theorem move_validation `{Runtime} (player_name lobby_name token : str)
    (rest : list stdin_event) :
  let move := str_upper token in
  let prompt := Prompt (move_prompt player_name) in
  let continue (events : list event) : M progress :=
    ((events, Return tt) : M unit) ≫= fun _ =>
      user_input_control player_name lobby_name rest in
  (In move [lit "UP"; lit "DOWN"; lit "LEFT"; lit "RIGHT"] ->
   user_input_control player_name lobby_name (Line token :: rest) =
     continue [prompt;
               Publish (lit "games/" ++ lobby_name ++ lit "/" ++ player_name ++ lit "/move")
                 move]) /\
  (move = lit "STOP" ->
   user_input_control player_name lobby_name (Line token :: rest) =
     ([prompt; Publish (lit "games/" ++ lobby_name ++ lit "/start") (lit "STOP")],
      Return Returned)) /\
  (~ In move [lit "UP"; lit "DOWN"; lit "LEFT"; lit "RIGHT"; lit "STOP"] ->
   user_input_control player_name lobby_name (Line token :: rest) =
     continue [prompt; Print (lit "Invalid move. Please try again.")]) /\
  (exists out r,
     user_input_control player_name lobby_name rest = (prompt :: out, r)).
Proof.
  cbv zeta. split_and!.
  - apply user_input_control_direction.
  - apply user_input_control_stop.
  - apply user_input_control_invalid.
  - apply user_input_control_prompts.
Qed.

Lemma move_validation_witness :
  In (ascii_upper (lit "Left")) [lit "UP"; lit "DOWN"; lit "LEFT"; lit "RIGHT"] /\
  ~ In (ascii_upper (lit "jump"))
      [lit "UP"; lit "DOWN"; lit "LEFT"; lit "RIGHT"; lit "STOP"] /\
  @user_input_control example_runtime (lit "Player1") (lit "TestLobby")
      [Line (lit "Left"); Line (lit "jump")] =
    ([ Prompt (move_prompt (lit "Player1"));
       Publish (lit "games/TestLobby/Player1/move") (lit "LEFT");
       Prompt (move_prompt (lit "Player1"));
       Print (lit "Invalid move. Please try again.");
       Prompt (move_prompt (lit "Player1")) ], Return AwaitingInput).
Proof.
  assert (Hleft : In (ascii_upper (lit "Left"))
                    [lit "UP"; lit "DOWN"; lit "LEFT"; lit "RIGHT"]).
  { do 2 right. left. reflexivity. }
  assert (Hjump : ~ In (ascii_upper (lit "jump"))
                      [lit "UP"; lit "DOWN"; lit "LEFT"; lit "RIGHT"; lit "STOP"]).
  { intros [Heq|[Heq|[Heq|[Heq|[Heq|[]]]]]]; discriminate Heq. }
  split; [exact Hleft|]. split; [exact Hjump|].
  rewrite (proj1 (@move_validation example_runtime (lit "Player1") (lit "TestLobby")
                    (lit "Left") [Line (lit "jump")]) Hleft).
  rewrite (proj1 (proj2 (proj2 (@move_validation example_runtime (lit "Player1")
                    (lit "TestLobby") (lit "jump") []))) Hjump).
  reflexivity.
Defined.

(** C7: on the token [STOP] the loop publishes the payload ["STOP"] on
    [games/{lobby}/start], which is not the player's move topic, and the
    function returns without reading further input. *)
Theorem stop_ends_input_loop `{Runtime} (player_name lobby_name token : str)
    (rest : list stdin_event) :
  str_upper token = lit "STOP" ->
  user_input_control player_name lobby_name (Line token :: rest) =
    ([ Prompt (move_prompt player_name);
       Publish (start_topic lobby_name) (lit "STOP") ], Return Returned) /\
  start_topic lobby_name = lit "games/" ++ lobby_name ++ lit "/start" /\
  start_topic lobby_name <> move_topic lobby_name player_name.
Proof.
  intros Hstop. split_and!.
  - by apply user_input_control_stop.
  - reflexivity.
  - apply start_topic_is_not_move_topic.
Qed.

Lemma stop_ends_input_loop_witness :
  ascii_upper (lit "stop") = lit "STOP" /\
  @user_input_control example_runtime (lit "Player1") (lit "TestLobby")
      [Line (lit "stop"); Line (lit "up")] =
    ([ Prompt (move_prompt (lit "Player1"));
       Publish (lit "games/TestLobby/start") (lit "STOP") ], Return Returned).
Proof.
  split; [reflexivity|].
  exact (proj1 (@stop_ends_input_loop example_runtime (lit "Player1") (lit "TestLobby")
                  (lit "stop") [Line (lit "up")] eq_refl)).
Defined.

(** ** Topics the subscriptions let through *)

Lemma segments_nonempty (s current : str) : segments s current <> [].
Proof.
  revert current. induction s as [|c s IH]; intros current; [done|].
  simpl. destruct (c =? 47)%N; [done|apply IH].
Qed.

(** Joining the segments with ['/'] gives the topic back. *)
Lemma join_segments (s current : str) :
  join [47%N] (segments s current) = current ++ s.
Proof.
  revert current. induction s as [|c s IH]; intros current.
  - simpl. by rewrite app_nil_r.
  - simpl. destruct (c =? 47)%N eqn:Hc.
    + apply N.eqb_eq in Hc as ->. specialize (IH []).
      destruct (segments s []) as [|seg segs] eqn:Hsegs; [by apply segments_nonempty in Hsegs|].
      change (join [47%N] (current :: seg :: segs))
        with (current ++ [47%N] ++ join [47%N] (seg :: segs)).
      by rewrite IH.
    + rewrite IH. by rewrite <- app_assoc.
Qed.

Lemma join_segments_topic (t : str) : join [47%N] (segments t []) = t.
Proof. apply (join_segments t []). Qed.

Lemma length_segments_slash (a b current : str) :
  length (segments (a ++ 47%N :: b) current) =
    (length (segments a current) + length (segments b []))%nat.
Proof.
  revert current. induction a as [|c a IH]; intros current; [done|].
  simpl. destruct (c =? 47)%N; [|apply IH]. simpl. by rewrite IH.
Qed.

Lemma length_segments_pos (s current : str) : (1 <= length (segments s current))%nat.
Proof.
  pose proof (segments_nonempty s current). destruct (segments s current); [done|simpl; lia].
Qed.

Lemma spec_segments_match_length (pattern topic : list str) :
  spec_segments_match pattern topic = true -> length pattern = length topic.
Proof.
  revert topic. induction pattern as [|p pattern IH]; intros [|t topic]; simpl; try done.
  intros [_ Hrest]%andb_true_iff. by rewrite (IH topic).
Qed.

(** A literal segment of the pattern fixes the segment of the topic. *)
Lemma spec_segments_match_literal (p t : str) (pattern topic : list str) :
  str_eqb p (lit "+") = false ->
  spec_segments_match (p :: pattern) (t :: topic) = true ->
  t = p /\ spec_segments_match pattern topic = true.
Proof.
  intros Hp. simpl. rewrite Hp. intros [Heq Hrest]%andb_true_iff.
  apply str_eqb_eq in Heq. by subst.
Qed.

Lemma spec_segments_match_wildcard (t : str) (pattern topic : list str) :
  spec_segments_match (lit "+" :: pattern) (t :: topic) = true ->
  t <> [] /\ spec_segments_match pattern topic = true.
Proof.
  simpl. change (str_eqb (lit "+") (lit "+")) with true. cbv iota.
  intros [Hne Hrest]%andb_true_iff. split; [|done].
  intros ->. done.
Qed.

(** A topic that matches the lobby filter is the lobby topic. *)
Lemma lobby_filter_matches (t : str) :
  spec_topic_matches (lit "games/TestLobby/lobby") t = true ->
  t = lit "games/TestLobby/lobby".
Proof.
  unfold spec_topic_matches.
  change (segments (lit "games/TestLobby/lobby") [])
    with [lit "games"; lit "TestLobby"; lit "lobby"].
  intros Hmatch. pose proof (spec_segments_match_length _ _ Hmatch) as Hlen.
  rewrite <- (join_segments_topic t).
  destruct (segments t []) as [|s1 [|s2 [|s3 [|]]]]; try done.
  apply spec_segments_match_literal in Hmatch as [-> Hmatch]; [|done].
  apply spec_segments_match_literal in Hmatch as [-> Hmatch]; [|done].
  by apply spec_segments_match_literal in Hmatch as [-> _].
Qed.

Lemma scores_filter_matches (t : str) :
  spec_topic_matches (lit "games/TestLobby/scores") t = true ->
  t = lit "games/TestLobby/scores".
Proof.
  unfold spec_topic_matches.
  change (segments (lit "games/TestLobby/scores") [])
    with [lit "games"; lit "TestLobby"; lit "scores"].
  intros Hmatch. pose proof (spec_segments_match_length _ _ Hmatch) as Hlen.
  rewrite <- (join_segments_topic t).
  destruct (segments t []) as [|s1 [|s2 [|s3 [|]]]]; try done.
  apply spec_segments_match_literal in Hmatch as [-> Hmatch]; [|done].
  apply spec_segments_match_literal in Hmatch as [-> Hmatch]; [|done].
  by apply spec_segments_match_literal in Hmatch as [-> _].
Qed.

(** A topic that matches the state filter is [games/TestLobby/P/game_state]
    for a non-empty [P]. *)
Lemma state_filter_matches (t : str) :
  spec_topic_matches (lit "games/TestLobby/+/game_state") t = true ->
  exists P, P <> [] /\ t = lit "games/TestLobby/" ++ P ++ lit "/game_state".
Proof.
  unfold spec_topic_matches.
  change (segments (lit "games/TestLobby/+/game_state") [])
    with [lit "games"; lit "TestLobby"; lit "+"; lit "game_state"].
  intros Hmatch. pose proof (spec_segments_match_length _ _ Hmatch) as Hlen.
  rewrite <- (join_segments_topic t).
  destruct (segments t []) as [|s1 [|s2 [|s3 [|s4 [|]]]]]; try done.
  apply spec_segments_match_literal in Hmatch as [-> Hmatch]; [|done].
  apply spec_segments_match_literal in Hmatch as [-> Hmatch]; [|done].
  apply spec_segments_match_wildcard in Hmatch as [Hne Hmatch].
  apply spec_segments_match_literal in Hmatch as [-> _]; [|done].
  exists s3. split; [done|]. reflexivity.
Qed.

Lemma segments_single (P current : str) :
  avoids 47 P = true -> segments P current = [current ++ P].
Proof.
  revert current. induction P as [|c P IH]; intros current HP.
  - simpl. by rewrite app_nil_r.
  - simpl in HP. apply andb_true_iff in HP as [Hc HP]. apply negb_true_iff in Hc.
    simpl. rewrite Hc, IH by done. by rewrite <- app_assoc.
Qed.

Lemma segments_slash (a b current : str) :
  avoids 47 a = true ->
  segments (a ++ 47%N :: b) current = (current ++ a) :: segments b [].
Proof.
  revert current. induction a as [|c a IH]; intros current Ha.
  - simpl. by rewrite app_nil_r.
  - simpl in Ha. apply andb_true_iff in Ha as [Hc Ha]. apply negb_true_iff in Hc.
    simpl. rewrite Hc, IH by done. by rewrite <- app_assoc.
Qed.

(** Every non-empty single segment [P] is let through by the state filter. *)
Lemma state_filter_accepts (P : str) :
  P <> [] -> avoids 47 P = true ->
  spec_topic_matches (lit "games/TestLobby/+/game_state")
    (lit "games/TestLobby/" ++ P ++ lit "/game_state") = true.
Proof.
  intros Hne HP. unfold spec_topic_matches.
  change (segments (lit "games/TestLobby/+/game_state") [])
    with [lit "games"; lit "TestLobby"; lit "+"; lit "game_state"].
  change (lit "games/TestLobby/" ++ P ++ lit "/game_state")
    with (lit "games" ++ 47%N :: (lit "TestLobby" ++ 47%N :: (P ++ 47%N :: lit "game_state"))).
  rewrite !segments_slash by done.
  change (segments (lit "game_state") []) with [lit "game_state"].
  simpl. by destruct P.
Qed.

(** A topic with an extra segment has at least five segments, and no
    filter of the client has more than four. *)
Lemma nested_topic_never_matches (L P Q pattern : str) :
  In pattern Main.subscriptions ->
  spec_topic_matches pattern
    (lit "games/" ++ L ++ lit "/" ++ P ++ lit "/" ++ Q ++ lit "/game_state") = false.
Proof.
  intros Hin. apply not_true_is_false. intros Hmatch.
  apply spec_segments_match_length in Hmatch.
  assert (Hshort : (length (segments pattern []) <= 4)%nat).
  { destruct Hin as [<-|[<-|[<-|[]]]]; vm_compute; lia. }
  assert (Hlong : (5 <= length (segments
            (lit "games/" ++ L ++ lit "/" ++ P ++ lit "/" ++ Q ++ lit "/game_state") []))%nat).
  { change (lit "games/" ++ L ++ lit "/" ++ P ++ lit "/" ++ Q ++ lit "/game_state")
      with (lit "games" ++ 47%N :: (L ++ 47%N :: (P ++ 47%N :: (Q ++ 47%N :: lit "game_state")))).
    rewrite !length_segments_slash.
    pose proof (length_segments_pos L []). pose proof (length_segments_pos P []).
    pose proof (length_segments_pos Q []).
    pose proof (length_segments_pos (lit "games") []).
    pose proof (length_segments_pos (lit "game_state") []). lia. }
  lia.
Qed.

(** C4: the topics the broker delivers are those that match one of the
    three subscriptions of lobby [TestLobby], and on them [on_message]
    routes as the segment patterns say: a topic that matches
    [games/TestLobby/lobby] is that topic and takes the generic path only;
    one that matches [games/TestLobby/+/game_state] goes to the state
    projection, and every [games/TestLobby/P/game_state] with a non-empty
    single segment [P] matches it; one that matches
    [games/TestLobby/scores] is printed as scores; and
    [games/L/P/Q/game_state], with its extra segment, matches none of the
    subscriptions. *)
Theorem inbound_topics_are_routed_by_pattern `{Runtime} (msg : MQTTMessage) (text : str) :
  utf8_decode (Byte.to_N <$> payload msg) = Some text ->
  let to_projection :=
    (announce msg, Return tt) ≫= fun _ => lift (json_loads text) ≫= process_game_state in
  let to_scores : M unit := (announce msg ++ [Print (lit "Scores: " ++ text)], Return tt) in
  let to_generic : M unit := (announce msg ++ [Print (lit "Message: " ++ text)], Return tt) in
  Main.subscriptions =
    [ lit "games/TestLobby/lobby"; lit "games/TestLobby/+/game_state";
      lit "games/TestLobby/scores" ] /\
  (spec_topic_matches (lit "games/TestLobby/lobby") (topic msg) = true ->
   topic msg = lit "games/TestLobby/lobby" /\ on_message msg = to_generic) /\
  (spec_topic_matches (lit "games/TestLobby/+/game_state") (topic msg) = true ->
   on_message msg = to_projection) /\
  (spec_topic_matches (lit "games/TestLobby/scores") (topic msg) = true ->
   topic msg = lit "games/TestLobby/scores" /\ on_message msg = to_scores) /\
  (forall P, P <> [] -> avoids 47 P = true ->
     spec_topic_matches (lit "games/TestLobby/+/game_state")
       (lit "games/TestLobby/" ++ P ++ lit "/game_state") = true) /\
  (forall P, topic msg = lit "games/TestLobby/" ++ P ++ lit "/game_state" ->
     on_message msg = to_projection) /\
  (forall L P Q pattern, In pattern Main.subscriptions ->
     spec_topic_matches pattern
       (lit "games/" ++ L ++ lit "/" ++ P ++ lit "/" ++ Q ++ lit "/game_state") = false).
Proof.
  intros Htext to_projection to_scores to_generic.
  destruct (on_message_routes_by_substring msg text Htext)
    as (Hstate & Hscores & Hgeneric & _).
  assert (Hprojected : forall P,
            topic msg = lit "games/TestLobby/" ++ P ++ lit "/game_state" ->
            on_message msg = to_projection).
  { intros P Htopic. apply Hstate. rewrite Htopic. by do 2 apply contains_app_r. }
  split_and!.
  - reflexivity.
  - intros Htopic%lobby_filter_matches. split; [done|].
    apply Hgeneric; by rewrite Htopic.
  - intros (P & _ & Htopic)%state_filter_matches. by apply (Hprojected P).
  - intros Htopic%scores_filter_matches. split; [done|].
    apply Hscores; by rewrite Htopic.
  - apply state_filter_accepts.
  - exact Hprojected.
  - apply nested_topic_never_matches.
Qed.

Lemma inbound_topics_are_routed_by_pattern_witness :
  utf8_decode (Byte.to_N <$> payload lobby_message) = Some (lit "{}") /\
  spec_topic_matches (lit "games/TestLobby/lobby") (topic lobby_message) = true /\
  @on_message example_runtime lobby_message =
    (announce lobby_message ++ [Print (lit "Message: " ++ lit "{}")], Return tt).
Proof.
  split; [reflexivity|]. split; [reflexivity|].
  exact (proj2 (proj1 (proj2 (@inbound_topics_are_routed_by_pattern example_runtime
                                lobby_message (lit "{}") eq_refl)) eq_refl)).
Defined.

(** ** The projection on the heap keeps no state

    The function on the heap is simulated, operation by operation, by the
    function on values: while a call runs, the heap is the one it started
    in followed by its own grid and default lists ([grid_heap]), and the
    output and exceptions are those of the value-level computation. *)

Lemma represents_list (h : heap) (v : hval) (docs : list pyvalue) :
  represents h v (PyList docs) <->
  exists l items, v = HRef l /\ h !! l = Some (HList items) /\
    Forall2 (represents h) items docs.
Proof.
  simpl. split; intros (l & items & Hv & Hl & Hall); exists l, items;
    (split; [done|]); (split; [done|]); clear Hl Hv.
  - revert items Hall. induction docs as [|d docs IH]; intros [|i items] Hall; try done.
    destruct Hall as [Hi Hall]. constructor; [done|]. by apply IH.
  - induction Hall as [|i d items docs Hi _ IH]; [done|]. by split.
Qed.

Lemma represents_dict (h : heap) (v : hval) (entries : list (str * pyvalue)) :
  represents h v (PyDict entries) <->
  exists l items, v = HRef l /\ h !! l = Some (HDict items) /\
    Forall2 (represents_entry h) items entries.
Proof.
  simpl. split; intros (l & items & Hv & Hl & Hall); exists l, items;
    (split; [done|]); (split; [done|]); clear Hl Hv.
  - revert items Hall.
    induction entries as [|[k d] entries IH]; intros [|[k' i] items] Hall; try done.
    destruct Hall as (Hk & Hi & Hall). constructor; [done|]. by apply IH.
  - induction Hall as [|[k' i] [k d] items entries [Hk Hi] _ IH]; [done|]. by split_and!.
Qed.

Lemma extends_app (h fresh : heap) : extends h (h ++ fresh).
Proof. intros l o Hl. by apply lookup_app_l_Some. Qed.

(** What a heap holds, a larger heap holds as well. *)
Lemma represents_extends (h h' : heap) (doc : pyvalue) :
  extends h h' -> forall v, represents h v doc -> represents h' v doc.
Proof.
  intros Hext. induction doc as [| | | | |docs IH|entries IH] using document_ind;
    intros v; try done.
  - rewrite !represents_list. intros (l & items & Hv & Hl & Hall).
    exists l, items. split_and!; [done|by apply Hext|].
    clear Hl Hv. induction Hall as [|i d items docs Hi _ IHall]; [constructor|].
    apply Forall_cons_1 in IH as [IHd IH].
    constructor; [by apply IHd|by apply IHall].
  - rewrite !represents_dict. intros (l & items & Hv & Hl & Hall).
    exists l, items. split_and!; [done|by apply Hext|].
    clear Hl Hv. induction Hall as [|i d items entries [Hk Hi] _ IHall]; [constructor|].
    apply Forall_cons_1 in IH as [IHd IH].
    constructor; [split; [done|by apply IHd]|by apply IHall].
Qed.

(** Running heap computations. *)
Lemma h_bind_ret {A B} (a : A) (k : A -> H B) (h : heap) : (mret a ≫= k) h = k a h.
Proof.
  cbv [mbind H_bind h_bind mret H_ret h_ret M_ret ret].
  by destruct (k a h) as [[h2 [log r]]|].
Qed.

Lemma h_bind_pure {A B} (m : M A) (k : A -> H B) (h : heap) :
  (pure m ≫= k) h =
    match m with
    | (log, Return a) =>
        match k a h with
        | Some (h2, (log', r)) => Some (h2, (log ++ log', r))
        | None => None
        end
    | (log, Raise e) => Some (h, (log, Raise e))
    end.
Proof. cbv [mbind H_bind h_bind pure]. by destruct m as [log [a|e]]. Qed.

Lemma h_bind_pure_ret {A B} (a : A) (k : A -> H B) (h : heap) :
  (pure (mret a) ≫= k) h = k a h.
Proof. apply (h_bind_ret a k h). Qed.

Lemma h_bind_pure_raise {A B} (e : exn) (k : A -> H B) (h : heap) :
  (pure (raise e) ≫= k) h = Some (h, raise e).
Proof. reflexivity. Qed.

Lemma h_bind_fetch {B} (l : loc) (o : hobj) (k : hobj -> H B) (h : heap) :
  h !! l = Some o -> (fetch l ≫= k) h = k o h.
Proof.
  intros Hl. cbv [mbind H_bind h_bind fetch]. rewrite Hl.
  cbv [mret M_ret ret]. by destruct (k o h) as [[h2 [log r]]|].
Qed.

Lemma h_bind_run {A B} (hm : H A) (k : A -> H B) (h h' : heap)
    (log : list event) (a : A) :
  hm h = Some (h', (log, Return a)) ->
  (hm ≫= k) h =
    match k a h' with
    | Some (h2, (log', r)) => Some (h2, (log ++ log', r))
    | None => None
    end.
Proof. intros Hrun. cbv [mbind H_bind h_bind]. by rewrite Hrun. Qed.

Lemma h_bind_run_raise {A B} (hm : H A) (k : A -> H B) (h h' : heap)
    (log : list event) (e : exn) :
  hm h = Some (h', (log, Raise e)) -> (hm ≫= k) h = Some (h', (log, Raise e)).
Proof. intros Hrun. cbv [mbind H_bind h_bind]. by rewrite Hrun. Qed.

(** The simulation composes along [bind]. *)
Lemma sim_bind {A B A' B'} (hm : H A) (k : A -> H A') (pm : M B) (kp : B -> M B')
    (h : heap) (R : heap -> A -> B -> Prop) (R' : heap -> A' -> B' -> Prop)
    (E : heap -> Prop) :
  sim hm h pm R E ->
  (forall h' a b, R h' a b -> sim (k a) h' (kp b) R' E) ->
  sim (hm ≫= k) h (pm ≫= kp) R' E.
Proof.
  intros Hm Hk. destruct pm as [log [b|e]].
  - destruct Hm as (h' & a & Hrun & HR). specialize (Hk h' a b HR).
    rewrite bind_value. unfold sim. rewrite (h_bind_run _ _ _ _ _ _ Hrun).
    destruct (kp b) as [log' [b'|e']]; cbn [fst snd].
    + destruct Hk as (h'' & a' & -> & HR'). by exists h'', a'.
    + destruct Hk as (h'' & -> & HE). by exists h''.
  - destruct Hm as (h' & Hrun & HE). exists h'. split; [|done].
    by apply h_bind_run_raise.
Qed.

Lemma sim_pure {A} (m : M A) (h : heap) (E : heap -> Prop) :
  E h -> sim (pure m) h m (fun h' a b => h' = h /\ a = b) E.
Proof. intros HE. destruct m as [log [a|e]]; [by exists h, a|by exists h]. Qed.

Lemma sim_weaken {A B} (hm : H A) (h : heap) (pm : M B)
    (R R' : heap -> A -> B -> Prop) (E : heap -> Prop) :
  sim hm h pm R E -> (forall h' a b, R h' a b -> R' h' a b) -> sim hm h pm R' E.
Proof.
  intros Hm HR. destruct pm as [log [b|e]]; [|done].
  destruct Hm as (h' & a & Hrun & Hab). exists h', a. split; [done|]. by apply HR.
Qed.

(** *** The layout of the heap during a call *)

Lemma length_rows_of (g : grid) : length (rows_of g) = length g.
Proof. apply length_fmap. Qed.

Lemma length_grid_heap (h0 : heap) (g : grid) (extra : heap) :
  shape5 g -> length (grid_heap h0 g extra) = (length h0 + 6 + length extra)%nat.
Proof.
  intros [Hlen _]. unfold grid_heap. rewrite !length_app, length_rows_of, Hlen.
  simpl. lia.
Qed.

Lemma grid_heap_extends (h0 : heap) (g : grid) (extra : heap) :
  extends h0 (grid_heap h0 g extra).
Proof. apply extends_app. Qed.

Lemma grid_heap_row (h0 : heap) (g : grid) (extra : heap) (i : nat) (row : list str) :
  g !! i = Some row ->
  grid_heap h0 g extra !! (length h0 + i)%nat = Some (HList (HStr <$> row)).
Proof.
  intros Hrow. unfold grid_heap. rewrite lookup_app_r by lia.
  replace (length h0 + i - length h0)%nat with i by lia.
  apply lookup_app_l_Some. unfold rows_of. by rewrite list_lookup_fmap, Hrow.
Qed.

Lemma grid_heap_grid (h0 : heap) (g : grid) (extra : heap) :
  shape5 g ->
  grid_heap h0 g extra !! (length h0 + 5)%nat = Some (HList (HRef <$> seq (length h0) 5%nat)).
Proof.
  intros [Hlen _]. unfold grid_heap. rewrite lookup_app_r by lia.
  rewrite lookup_app_r by (rewrite length_rows_of; lia).
  rewrite length_rows_of, Hlen.
  by replace (length h0 + 5 - length h0 - 5)%nat with 0%nat by lia.
Qed.

Lemma grid_heap_store (h0 : heap) (g : grid) (extra : heap) (i : nat)
    (row : list str) :
  (i < length g)%nat ->
  <[(length h0 + i)%nat := HList (HStr <$> row)]> (grid_heap h0 g extra) =
    grid_heap h0 (<[i := row]> g) extra.
Proof.
  intros Hi. unfold grid_heap. rewrite insert_app_r_alt by lia.
  replace (length h0 + i - length h0)%nat with i by lia.
  rewrite insert_app_l by (by rewrite length_rows_of).
  unfold rows_of. by rewrite list_fmap_insert.
Qed.

Lemma grid_heap_alloc (h0 : heap) (g : grid) (extra : heap) (o : hobj) :
  grid_heap h0 g extra ++ [o] = grid_heap h0 g (extra ++ [o]).
Proof. unfold grid_heap. by rewrite <- !app_assoc. Qed.

(** *** Single operations *)

Lemma sim_ext {A B} (hm hm' : H A) (h : heap) (pm : M B)
    (R : heap -> A -> B -> Prop) (E : heap -> Prop) :
  hm h = hm' h -> sim hm' h pm R E -> sim hm h pm R E.
Proof. unfold sim. by intros ->. Qed.

Lemma sim_ret {A B} (a : A) (b : B) (h : heap)
    (R : heap -> A -> B -> Prop) (E : heap -> Prop) :
  R h a b -> sim (mret a) h (mret b) R E.
Proof. intros HR. by exists h, a. Qed.

Lemma sim_raise {A B} (e : exn) (h : heap)
    (R : heap -> A -> B -> Prop) (E : heap -> Prop) :
  E h -> sim (pure (raise e)) h (raise e) R E.
Proof. intros HE. by exists h. Qed.

Lemma sim_fetch {A B} (l : loc) (o : hobj) (k : hobj -> H A) (h : heap) (pm : M B)
    (R : heap -> A -> B -> Prop) (E : heap -> Prop) :
  h !! l = Some o -> sim (k o) h pm R E -> sim (fetch l ≫= k) h pm R E.
Proof. intros Hl. apply sim_ext. by apply h_bind_fetch. Qed.

(** A step that returns silently, followed by [k]. *)
Lemma h_bind_run_silent {A B} (hm : H A) (k : A -> H B) (h h' : heap) (a : A) :
  hm h = Some (h', mret a) -> (hm ≫= k) h = k a h'.
Proof.
  intros Hrun. rewrite (h_bind_run _ _ _ _ _ _ Hrun).
  by destruct (k a h') as [[h2 [log r]]|].
Qed.

Lemma sim_run {A A' B} (hm : H A) (k : A -> H A') (h h' : heap) (a : A) (pm : M B)
    (R : heap -> A' -> B -> Prop) (E : heap -> Prop) :
  hm h = Some (h', mret a) -> sim (k a) h' pm R E -> sim (hm ≫= k) h pm R E.
Proof. intros Hrun. unfold sim. by rewrite (h_bind_run_silent _ _ _ _ _ Hrun). Qed.

(** A computation on values, run on the heap and followed by [k]. *)
Lemma sim_bind_pure {A A' B'} (m : M A) (k : A -> H A') (kp : A -> M B')
    (h : heap) (R' : heap -> A' -> B' -> Prop) (E : heap -> Prop) :
  E h ->
  (forall a, sim (k a) h (kp a) R' E) ->
  sim (pure m ≫= k) h (m ≫= kp) R' E.
Proof.
  intros HE Hk. eapply sim_bind; [by apply sim_pure|].
  intros h' a b [-> ->]. apply Hk.
Qed.

Lemma running_extends (h0 h : heap) : running h0 h -> extends h0 h.
Proof. intros (g & extra & _ & ->). apply grid_heap_extends. Qed.

Lemma hdict_lookup_represents (h : heap) (items : list (str * hval))
    (entries : list (str * pyvalue)) (k : str) :
  Forall2 (represents_entry h) items entries ->
  option_Forall2 (represents h) (hdict_lookup items k) (dict_lookup entries k).
Proof.
  induction 1 as [|[k' i] [k'' d] items entries [Hk Hi] _ IH]; simpl in *.
  - constructor.
  - subst k''. destruct (str_eqb k' k); [by constructor|done].
Qed.

Lemma operand_represents (h : heap) (v : hval) (d : pyvalue) :
  represents h v d -> as_number (operand v) = as_number d.
Proof.
  destruct d as [| b | z | f | s | docs | entries]; simpl; try (by intros ->).
  - intros (l & items & -> & _). done.
  - intros (l & items & -> & _). done.
Qed.

Section Running.
Variable h0 : heap.

Lemma sim_subscript (obj : hval) (d key : pyvalue) (h : heap) :
  represents h0 obj d -> running h0 h ->
  sim (h_subscript obj key) h (py_subscript d key)
    (fun h' v d' => h' = h /\ represents h0 v d') (running h0).
Proof.
  intros Hobj Hrun. pose proof (running_extends _ _ Hrun) as Hext.
  destruct d as [| b | z | f | s | docs | entries].
  - simpl in Hobj. subst obj. by apply sim_raise.
  - simpl in Hobj. subst obj. by apply sim_raise.
  - simpl in Hobj. subst obj. by apply sim_raise.
  - simpl in Hobj. subst obj. by apply sim_raise.
  - simpl in Hobj. subst obj. cbn [h_subscript py_subscript].
    apply sim_bind_pure; [done|]. intros n.
    destruct (s !! n); [by apply sim_ret|by apply sim_raise].
  - apply represents_list in Hobj as (l & items & -> & Hl & Hall).
    cbn [h_subscript py_subscript]. eapply sim_fetch; [by apply Hext|]. cbv beta iota.
    rewrite (Forall2_length _ _ _ Hall).
    apply sim_bind_pure; [done|]. intros n.
    destruct (docs !! n) as [d|] eqn:Hd.
    + destruct (Forall2_lookup_r _ _ _ _ _ Hall Hd) as (v & -> & Hv).
      by apply sim_ret.
    + assert (items !! n = None) as ->.
      { apply lookup_ge_None. rewrite (Forall2_length _ _ _ Hall).
        by apply lookup_ge_None. }
      by apply sim_raise.
  - apply represents_dict in Hobj as (l & items & -> & Hl & Hall).
    cbn [h_subscript py_subscript]. eapply sim_fetch; [by apply Hext|]. cbv beta iota.
    destruct key as [| b | z | f | k | docs | entries']; try by apply sim_raise.
    destruct (hdict_lookup_represents _ _ _ k Hall) as [v d Hv|];
      [by apply sim_ret|by apply sim_raise].
Qed.

Lemma sim_iter (obj : hval) (d : pyvalue) (h : heap) :
  represents h0 obj d -> running h0 h ->
  sim (h_iter obj) h (py_iter d)
    (fun h' vs ds => h' = h /\ Forall2 (represents h0) vs ds) (running h0).
Proof.
  intros Hobj Hrun. pose proof (running_extends _ _ Hrun) as Hext.
  destruct d as [| b | z | f | s | docs | entries].
  - simpl in Hobj. subst obj. by apply sim_raise.
  - simpl in Hobj. subst obj. by apply sim_raise.
  - simpl in Hobj. subst obj. by apply sim_raise.
  - simpl in Hobj. subst obj. by apply sim_raise.
  - simpl in Hobj. subst obj. apply sim_ret. split; [done|].
    apply Forall2_fmap, Forall_Forall2_diag, Forall_forall. by intros c _.
  - apply represents_list in Hobj as (l & items & -> & Hl & Hall).
    cbn [h_iter py_iter]. eapply sim_fetch; [by apply Hext|]. by apply sim_ret.
  - apply represents_dict in Hobj as (l & items & -> & Hl & Hall).
    cbn [h_iter py_iter]. eapply sim_fetch; [by apply Hext|]. apply sim_ret.
    split; [done|]. apply Forall2_fmap.
    eapply Forall2_impl; [exact Hall|]. intros item entry [Hk _]. simpl. by rewrite Hk.
Qed.

Lemma sim_unpack2 (obj : hval) (d : pyvalue) (h : heap) :
  represents h0 obj d -> running h0 h ->
  sim (h_unpack2 obj) h (py_unpack2 d)
    (fun h' p dp => h' = h /\ represents h0 (fst p) (fst dp)
                    /\ represents h0 (snd p) (snd dp)) (running h0).
Proof.
  intros Hobj Hrun. unfold h_unpack2, py_unpack2.
  eapply sim_bind; [by apply sim_iter|]. intros h' vs ds [-> Hall].
  destruct Hall as [|x dx vs ds Hx Hall]; [by apply sim_raise|].
  destruct Hall as [|y dy vs ds Hy Hall]; [by apply sim_raise|].
  destruct Hall as [|z dz vs ds Hz Hall]; [by apply sim_ret|by apply sim_raise].
Qed.

Lemma sim_relative (state v : hval) (doc d : pyvalue) (axis center : Z) (h : heap) :
  represents h0 state doc -> represents h0 v d -> running h0 h ->
  sim (h_relative state v axis center) h (relative doc d axis center)
    (fun h' a b => h' = h /\ a = b) (running h0).
Proof.
  intros Hstate Hv Hrun. unfold h_relative, relative.
  eapply sim_bind; [by apply sim_subscript|]. intros h' pos dpos [-> Hpos].
  eapply sim_bind; [by apply sim_subscript|]. intros h' p dp [-> Hp].
  assert (py_sub (operand v) (operand p) = py_sub d dp) as ->.
  { unfold py_sub.
    by rewrite (operand_represents _ _ _ Hv), (operand_represents _ _ _ Hp). }
  by apply sim_pure.
Qed.

(** A guarded computation on values whose result selects the next step. *)
Lemma sim_select {A A'} (P : A -> Prop) (m : M A) (k : A -> H A') (h : heap)
    (R : heap -> A' -> A -> Prop) (E : heap -> Prop) :
  guarded P m -> E h ->
  (forall a, P a -> exists a', k a h = Some (h, mret a') /\ R h a' a) ->
  sim (pure m ≫= k) h m R E.
Proof.
  intros Hm HE Hk. destruct m as [[|ev log] [a|e]]; try done.
  - destruct (Hk a Hm) as (a' & Hrun & HR). exists h, a'. split; [|done].
    exact (eq_trans (h_bind_pure_ret a k h) Hrun).
  - by exists h.
Qed.

Lemma grid_subscript (g : grid) (extra : heap) (va : pyvalue) :
  shape5 g ->
  sim (h_subscript (grid_ref h0) va) (grid_heap h0 g extra) (py_index (length g) va)
    (fun h' row i => h' = grid_heap h0 g extra /\ (i < length g)%nat
                     /\ row = HRef (length h0 + i)%nat) (running h0).
Proof.
  intros Hg. unfold grid_ref. cbn [h_subscript].
  eapply sim_fetch; [by apply grid_heap_grid|]. cbv beta iota.
  rewrite length_fmap, length_seq. destruct Hg as [Hlen Hrows]. rewrite Hlen.
  eapply sim_select; [apply guarded_py_index|by exists g, extra|].
  intros i Hi. exists (HRef (length h0 + i)%nat).
  rewrite list_lookup_fmap, (lookup_seq_lt _ _ _ Hi). done.
Qed.

Lemma sim_store_cell (g : grid) (extra : heap) (a b : H pyvalue) (pa pb : M pyvalue)
    (mark : str) :
  shape5 g ->
  sim a (grid_heap h0 g extra) pa
    (fun h' x y => h' = grid_heap h0 g extra /\ x = y) (running h0) ->
  sim b (grid_heap h0 g extra) pb
    (fun h' x y => h' = grid_heap h0 g extra /\ x = y) (running h0) ->
  sim (h_store_cell (grid_ref h0) a b mark) (grid_heap h0 g extra)
    (store_cell g pa pb mark)
    (fun h' _ g' => shape5 g' /\ h' = grid_heap h0 g' extra) (running h0).
Proof.
  intros Hg Ha Hb. unfold h_store_cell, store_cell.
  eapply sim_bind; [exact Ha|]. intros h' va ? [-> ->].
  eapply sim_bind; [by apply grid_subscript|]. intros h' row i (-> & Hi & ->).
  destruct (lookup_lt_is_Some_2 _ _ Hi) as [r Hr]. rewrite Hr.
  eapply sim_bind; [exact Hb|]. intros h' vb ? [-> ->].
  cbn [h_store]. eapply sim_fetch; [by apply grid_heap_row|]. cbv beta iota.
  rewrite length_fmap. apply sim_bind_pure; [by exists g, extra|]. intros j.
  exists (<[(length h0 + i)%nat := HList (<[j := HStr mark]> (HStr <$> r))]>
            (grid_heap h0 g extra)), tt.
  split; [done|]. split.
  - replace (<[i := <[j := mark]> r]> g) with (set_cell g i j mark)
      by (unfold set_cell; by rewrite Hr).
    by apply shape5_set_cell.
  - rewrite <- list_fmap_insert. by apply grid_heap_store.
Qed.

Section Placing.
Variables (state : hval) (doc : pyvalue).
Hypothesis Hstate : represents h0 state doc.

Lemma sim_place_coin (coin : hval) (dcoin : pyvalue) (g : grid) (extra : heap) :
  represents h0 coin dcoin -> shape5 g ->
  sim (h_place_coin state (grid_ref h0) coin) (grid_heap h0 g extra)
    (place_coin doc dcoin g)
    (fun h' _ g' => shape5 g' /\ h' = grid_heap h0 g' extra) (running h0).
Proof.
  intros Hcoin Hg. unfold h_place_coin, place_coin.
  assert (running h0 (grid_heap h0 g extra)) as Hrun by (by exists g, extra).
  eapply sim_bind; [by apply sim_unpack2|].
  intros h' [x y] [dx dy] (-> & Hx & Hy). cbv beta iota.
  apply sim_store_cell; [done|by apply sim_relative..].
Qed.

Lemma sim_place_wall (wall : hval) (dwall : pyvalue) (g : grid) (extra : heap) :
  represents h0 wall dwall -> shape5 g ->
  sim (h_place_wall state (grid_ref h0) wall) (grid_heap h0 g extra)
    (place_wall doc dwall g)
    (fun h' _ g' => shape5 g' /\ h' = grid_heap h0 g' extra) (running h0).
Proof.
  intros Hwall Hg. unfold h_place_wall, place_wall.
  assert (running h0 (grid_heap h0 g extra)) as Hrun by (by exists g, extra).
  eapply sim_bind; [by apply sim_unpack2|].
  intros h' [x y] [dx dy] (-> & Hx & Hy). cbv beta iota.
  eapply sim_bind; [by apply sim_relative|]. intros h' a a' [-> <-].
  apply sim_bind_pure; [done|]. intros [|]; [|by apply sim_ret].
  eapply sim_bind; [by apply sim_relative|]. intros h' b b' [-> <-].
  apply sim_bind_pure; [done|]. intros [|]; [|by apply sim_ret].
  apply sim_store_cell; [done|by apply sim_relative..].
Qed.

End Placing.

End Running.

(** A loop whose body is simulated step by step. *)
Lemma sim_for_each {A B S S'} (Rel : A -> B -> Prop) (Inv : heap -> S -> S' -> Prop)
    (E : heap -> Prop) (body : A -> S -> H S) (pbody : B -> S' -> M S')
    (xs : list A) (ds : list B) :
  Forall2 Rel xs ds ->
  (forall x d h acc pacc, Rel x d -> Inv h acc pacc ->
     sim (body x acc) h (pbody d pacc) Inv E) ->
  forall h acc pacc, Inv h acc pacc ->
  sim (h_for_each xs body acc) h (for_each ds pbody pacc) Inv E.
Proof.
  intros Hall Hbody. induction Hall as [|x d xs ds Hx _ IH]; intros h acc pacc Hinv.
  - by apply sim_ret.
  - cbn [h_for_each for_each]. eapply sim_bind; [by apply Hbody|].
    intros h' acc' pacc' Hinv'. by apply IH.
Qed.


(** *** The whole call *)

Lemma h_join_strings (sep : str) (row : list str) :
  h_join sep (HStr <$> row) = mret (join sep row).
Proof.
  induction row as [|c row IH]; [done|].
  cbn [fmap list_fmap h_join]. fold (fmap (M := list) HStr row).
  rewrite IH, bind_ret. by destruct row.
Qed.

Lemma alloc_run (o : hobj) (h : heap) :
  alloc o h = Some (h ++ [o], mret (HRef (length h))).
Proof. reflexivity. Qed.

Lemma new_rows_run (o : hobj) (k n : nat) (rows : list hval) (h : heap) :
  h_for_each (seq k n)
    (fun _ rows => row ← alloc o; mret (rows ++ [row])) rows h =
    Some (h ++ replicate n o, mret (rows ++ (HRef <$> seq (length h) n))).
Proof.
  revert k rows h. induction n as [|n IH]; intros k rows h.
  - simpl. by rewrite !app_nil_r.
  - cbn [seq h_for_each].
    erewrite h_bind_run_silent;
      [|erewrite h_bind_run_silent; [|apply alloc_run]; reflexivity].
    rewrite IH, <- !app_assoc, length_app. simpl.
    by rewrite Nat.add_1_r.
Qed.

Lemma h_new_grid_run (h0 : heap) :
  h_new_grid h0 =
    Some (grid_heap h0 (replicate 5 (replicate 5 blank)) [], mret (grid_ref h0)).
Proof.
  unfold h_new_grid. erewrite h_bind_run_silent; [|apply new_rows_run].
  rewrite alloc_run. unfold grid_heap, grid_ref, rows_of.
  rewrite length_app, length_replicate, <- app_assoc. reflexivity.
Qed.

Section Call.
Variables (h0 : heap) (state : hval) (doc : pyvalue).
Hypothesis Hstate : represents h0 state doc.

(** [state.get(key, [])]: the default list is built before the call, so
    the heap has one more object whenever [state] is a dict. *)
Lemma sim_get_items (key : str) (g : grid) (extra : heap) :
  shape5 g ->
  sim (h_get state key (alloc (HList []))) (grid_heap h0 g extra)
    (py_get doc key (PyList []))
    (fun h' v d =>
       h' = grid_heap h0 g (extra ++ [HList []]) /\
       sim (h_iter v) h' (py_iter d)
         (fun h'' vs ds => h'' = h' /\ Forall2 (represents h0) vs ds) (running h0))
    (running h0).
Proof.
  intros Hg.
  assert (running h0 (grid_heap h0 g extra)) as Hrun by (by exists g, extra).
  pose proof (running_extends _ _ Hrun) as Hext.
  destruct doc as [| b | z | f | s | docs | entries].
  - simpl in Hstate. subst state. by apply sim_raise.
  - simpl in Hstate. subst state. by apply sim_raise.
  - simpl in Hstate. subst state. by apply sim_raise.
  - simpl in Hstate. subst state. by apply sim_raise.
  - simpl in Hstate. subst state. by apply sim_raise.
  - apply represents_list in Hstate as (l & items & -> & Hl & Hall).
    cbn [h_get py_get]. eapply sim_fetch; [by apply Hext|]. by apply sim_raise.
  - apply represents_dict in Hstate as (l & items & -> & Hl & Hall).
    cbn [h_get py_get]. eapply sim_fetch; [by apply Hext|]. cbv beta iota.
    eapply sim_run; [apply alloc_run|]. apply sim_ret.
    rewrite grid_heap_alloc. split; [done|].
    assert (running h0 (grid_heap h0 g (extra ++ [HList []]))) as Hrun'
      by (by exists g, (extra ++ [HList []])).
    destruct (hdict_lookup_represents _ _ _ key Hall) as [v d Hv|]; cbn [default].
    + by apply sim_iter.
    + cbn [h_iter py_iter]. rewrite <- grid_heap_alloc.
      eapply sim_fetch; [by apply list_lookup_middle|]. by apply sim_ret.
Qed.

Lemma grid_rows (g : grid) :
  shape5 g ->
  Forall2 (fun v row => exists i, v = HRef (length h0 + i)%nat /\ g !! i = Some row)
    (HRef <$> seq (length h0) 5) g.
Proof.
  intros [Hlen _]. apply Forall2_fmap_l, Forall2_same_length_lookup_2.
  - by rewrite length_seq.
  - intros i l row Hl Hrow. apply lookup_seq in Hl as [-> _]. by exists i.
Qed.

Lemma sim_print_grid (g : grid) (extra : heap) :
  shape5 g ->
  sim (h_print_grid (grid_ref h0)) (grid_heap h0 g extra) (print_grid g)
    (fun h' _ _ => h' = grid_heap h0 g extra) (running h0).
Proof.
  intros Hg.
  assert (running h0 (grid_heap h0 g extra)) as Hrun by (by exists g, extra).
  unfold h_print_grid, print_grid.
  eapply sim_run.
  { unfold grid_ref. cbn [h_iter].
    rewrite (h_bind_fetch _ _ _ _ (grid_heap_grid h0 g extra Hg)). reflexivity. }
  eapply sim_bind.
  - eapply (sim_for_each _ (fun h' _ _ => h' = grid_heap h0 g extra));
      [by apply grid_rows| |done].
    intros v row h [] [] (i & -> & Hrow) ->.
    eapply sim_run.
    { cbn [h_iter].
      rewrite (h_bind_fetch _ _ _ _ (grid_heap_row h0 g extra i row Hrow)).
      reflexivity. }
    rewrite h_join_strings.
    eapply sim_ext; [apply h_bind_pure_ret|].
    eapply sim_weaken; [by apply sim_pure|]. by intros h' [] [] [-> _].
  - intros h' [] [] ->.
    eapply sim_weaken; [by apply sim_pure|]. by intros h' [] [] [-> _].
Qed.

Lemma sim_try_except (body : H unit) (pbody : M unit) (catches : exn -> bool)
    (handler : exn -> M unit) (h : heap) (R : heap -> unit -> unit -> Prop)
    (E : heap -> Prop) :
  sim body h pbody R E ->
  exists h', h_try_except body catches (fun e => pure (handler e)) h =
               Some (h', try_except pbody catches handler)
             /\ (E h' \/ R h' tt tt).
Proof.
  intros Hbody. unfold h_try_except, try_except.
  destruct pbody as [log [[]|e]].
  - destruct Hbody as (h' & [] & -> & HR). exists h'. tauto.
  - destruct Hbody as (h' & -> & HE). exists h'. split; [|tauto].
    unfold pure. by destruct (catches e), (handler e).
Qed.

Lemma sim_try_block :
  sim (grid ← h_new_grid;
       _ ← h_store_cell grid (mret (PyInt center_x)) (mret (PyInt center_y)) (lit "P");
       coins ← h_get state (lit "coins") (alloc (HList []));
       coins ← h_iter coins;
       _ ← h_for_each coins (fun coin _ => h_place_coin state grid coin) tt;
       walls ← h_get state (lit "walls") (alloc (HList []));
       walls ← h_iter walls;
       _ ← h_for_each walls (fun wall _ => h_place_wall state grid wall) tt;
       h_print_grid grid)
    h0 (g ← build_grid doc; print_grid g)
    (fun h' _ _ => running h0 h') (running h0).
Proof.
  eapply sim_run; [apply h_new_grid_run|].
  unfold build_grid. rewrite bind_assoc.
  eapply sim_bind.
  { apply sim_store_cell; [apply shape5_initial|by apply sim_ret..]. }
  intros h' [] g [Hg ->]. rewrite bind_assoc.
  eapply sim_bind; [by apply sim_get_items|].
  intros h' coins dcoins [-> Hcoins]. rewrite bind_assoc.
  eapply sim_bind; [exact Hcoins|].
  intros h' items ditems [-> Hitems]. rewrite bind_assoc.
  eapply sim_bind.
  { eapply (sim_for_each _
      (fun h' _ g' => shape5 g' /\ h' = grid_heap h0 g' ([] ++ [HList []])));
      [exact Hitems| |by split].
    intros coin dcoin h [] g0 Hcoin [Hg0 ->]. by apply sim_place_coin. }
  intros h' [] g1 [Hg1 ->]. rewrite bind_assoc.
  eapply sim_bind; [by apply sim_get_items|].
  intros h' walls dwalls [-> Hwalls]. rewrite bind_assoc.
  eapply sim_bind; [exact Hwalls|].
  intros h' witems dwitems [-> Hwitems].
  eapply sim_bind.
  { eapply (sim_for_each _
      (fun h' _ g' => shape5 g' /\
         h' = grid_heap h0 g' (([] ++ [HList []]) ++ [HList []])));
      [exact Hwitems| |by split].
    intros wall dwall h [] g0 Hwall [Hg0 ->]. by apply sim_place_wall. }
  intros h' [] g2 [Hg2 ->].
  eapply sim_weaken; [by apply sim_print_grid|].
  intros h' _ _ ->. by eexists _, _.
Qed.

(** The call leaves every object it found as it was, adds objects of its
    own, and prints and raises what [process_game_state] on the document
    does. *)
Lemma process_game_state_on_heap :
  exists fresh,
    h_process_game_state state h0 = Some (h0 ++ fresh, process_game_state doc).
Proof.
  destruct (sim_try_except _ _ is_Exception
              (fun e => emit (PrintExn (lit "Error processing game state:") e))
              _ _ _ sim_try_block) as (h' & Hrun & Hh').
  assert (running h0 h') as (g & extra & _ & ->) by tauto.
  eexists. exact Hrun.
Qed.

End Call.

(** The basic scenario on the heap: after the call the six objects of the
    snapshot are as before, followed by the rows of the grid, the grid and
    the two default lists. *)
Example scene_heap_after_call :
  h_process_game_state scene_ref scene_heap =
    Some (grid_heap scene_heap
            [ [blank; blank; blank; blank; blank];
              [blank; blank; lit "W"; blank; blank];
              [blank; blank; lit "P"; lit "C"; blank];
              [blank; blank; blank; blank; blank];
              [blank; blank; blank; blank; blank] ]
            [HList []; HList []],
          process_game_state (snapshot basic_scene)).
Proof. reflexivity. Qed.

(** C8: [process_game_state] keeps nothing from one call to the next and
    depends on the snapshot only.  On a heap [h] of mutable objects that
    holds the snapshot [doc] at [state], a call prints and raises what the
    document alone determines, [process_game_state doc]; it leaves every
    object of [h] as it was, the snapshot among them, and only adds
    objects of its own ([fresh]: the grid, rebuilt from nothing, and the
    default lists).  A second call on the same snapshot, in the heap the
    first one left behind, prints exactly the same. *)
Theorem process_game_state_keeps_no_state (h : heap) (state : hval) (doc : pyvalue) :
  represents h state doc ->
  exists fresh fresh' : heap,
    h_process_game_state state h = Some (h ++ fresh, process_game_state doc) /\
    h_process_game_state state (h ++ fresh) =
      Some ((h ++ fresh) ++ fresh', process_game_state doc) /\
    represents (h ++ fresh) state doc /\
    represents ((h ++ fresh) ++ fresh') state doc.
Proof.
  intros Hstate.
  destruct (process_game_state_on_heap h state doc Hstate) as [fresh Hfirst].
  assert (represents (h ++ fresh) state doc) as Hstate'
    by (eapply represents_extends; [apply extends_app|done]).
  destruct (process_game_state_on_heap (h ++ fresh) state doc Hstate')
    as [fresh' Hsecond].
  exists fresh, fresh'. split_and!; [done..|].
  eapply represents_extends; [apply extends_app|done].
Qed.

Lemma process_game_state_keeps_no_state_witness :
  represents scene_heap scene_ref (snapshot basic_scene) /\
  exists fresh fresh' : heap,
    h_process_game_state scene_ref scene_heap =
      Some (scene_heap ++ fresh, process_game_state (snapshot basic_scene)) /\
    h_process_game_state scene_ref (scene_heap ++ fresh) =
      Some ((scene_heap ++ fresh) ++ fresh', process_game_state (snapshot basic_scene)) /\
    represents (scene_heap ++ fresh) scene_ref (snapshot basic_scene) /\
    represents ((scene_heap ++ fresh) ++ fresh') scene_ref (snapshot basic_scene).
Proof.
  assert (represents scene_heap scene_ref (snapshot basic_scene)) as Hstate.
  { simpl. unfold scene_ref. repeat (eexists || split_and!); reflexivity. }
  split; [exact Hstate|].
  exact (process_game_state_keeps_no_state scene_heap scene_ref
           (snapshot basic_scene) Hstate).
Defined.

(** * Further properties *)

(** ** Inputs that are not well-typed snapshots *)

Lemma build_grid_start (state : pyvalue) :
  build_grid state =
    coins ← py_get state (lit "coins") (PyList []);
    coins ← py_iter coins;
    g ← for_each coins (place_coin state) player_only;
    walls ← py_get state (lit "walls") (PyList []);
    walls ← py_iter walls;
    for_each walls (place_wall state) g.
Proof. unfold build_grid. cbv zeta. by rewrite store_center, bind_ret. Qed.

(** X1: a decoded value that is not a dict (a list, a string, a number,
    [true], [null]) has no [get] method: the projection reports
    [AttributeError] and draws nothing. *)
Theorem not_a_dict_reports_AttributeError (state : pyvalue) :
  is_dict state = false ->
  process_game_state state = (error_report AttributeError, Return tt).
Proof.
  intros Hstate. apply process_game_state_reports; [|done].
  rewrite build_grid_start. by destruct state.
Qed.

Lemma not_a_dict_reports_AttributeError_witness :
  is_dict (PyStr (lit "coins")) = false /\
  process_game_state (PyStr (lit "coins")) = (error_report AttributeError, Return tt).
Proof.
  split; [reflexivity|].
  exact (not_a_dict_reports_AttributeError (PyStr (lit "coins")) eq_refl).
Defined.

(** X2: [currentPosition] is read only while an entity is placed.  A dict
    whose [coins] and [walls] are absent or empty renders the player alone,
    whatever else it holds, even without a [currentPosition]. *)
Theorem no_entities_renders_player_only (d : list (str * pyvalue)) :
  dict_lookup d (lit "coins") = None \/ dict_lookup d (lit "coins") = Some (PyList []) ->
  dict_lookup d (lit "walls") = None \/ dict_lookup d (lit "walls") = Some (PyList []) ->
  process_game_state (PyDict d) = (grid_lines player_only, Return tt).
Proof.
  intros Hcoins Hwalls.
  rewrite (process_game_state_renders (PyDict d) player_only); [apply print_grid_output|].
  unfold renders. rewrite build_grid_start. unfold py_get.
  assert (Hc : default (PyList []) (dict_lookup d (lit "coins")) = PyList [])
    by (by destruct Hcoins as [-> | ->]).
  assert (Hw : default (PyList []) (dict_lookup d (lit "walls")) = PyList [])
    by (by destruct Hwalls as [-> | ->]).
  rewrite Hc, Hw. by rewrite !bind_ret.
Qed.

Lemma no_entities_renders_player_only_witness :
  (dict_lookup [(lit "score", PyInt 7)] (lit "coins") = None \/
   dict_lookup [(lit "score", PyInt 7)] (lit "coins") = Some (PyList [])) /\
  (dict_lookup [(lit "score", PyInt 7)] (lit "walls") = None \/
   dict_lookup [(lit "score", PyInt 7)] (lit "walls") = Some (PyList [])) /\
  process_game_state (PyDict [(lit "score", PyInt 7)]) =
    (grid_lines player_only, Return tt).
Proof.
  assert (Hc : dict_lookup [(lit "score", PyInt 7)] (lit "coins") = None \/
               dict_lookup [(lit "score", PyInt 7)] (lit "coins") = Some (PyList []))
    by (left; reflexivity).
  assert (Hw : dict_lookup [(lit "score", PyInt 7)] (lit "walls") = None \/
               dict_lookup [(lit "score", PyInt 7)] (lit "walls") = Some (PyList []))
    by (left; reflexivity).
  split; [exact Hc|]. split; [exact Hw|].
  exact (no_entities_renders_player_only [(lit "score", PyInt 7)] Hc Hw).
Defined.

Lemma relative_missing_position (d : list (str * pyvalue)) (v : pyvalue)
    (axis center : Z) :
  dict_lookup d (lit "currentPosition") = None ->
  relative (PyDict d) v axis center = raise (KeyError (PyStr (lit "currentPosition"))).
Proof. intros Hpos. unfold relative. cbn [py_subscript]. by rewrite Hpos. Qed.

Lemma store_cell_raise (g : grid) (a b : M pyvalue) (mark : str) (e : exn) :
  a = raise e -> store_cell g a b mark = raise e.
Proof. by intros ->. Qed.

Lemma place_coin_pair (state x y : pyvalue) (g : grid) :
  place_coin state (PyList [x; y]) g =
    store_cell g (relative state x 0 center_x) (relative state y 1 center_y) (lit "C").
Proof.
  unfold place_coin. change (py_unpack2 (PyList [x; y])) with (mret (M := M) (x, y)).
  by rewrite bind_ret.
Qed.

(** X3: with a first coin that is a pair, a dict without
    [currentPosition] is reported as [KeyError('currentPosition')]: the
    key is looked up when the first coin is placed, and nothing is drawn. *)
Theorem missing_position_reports_KeyError (d : list (str * pyvalue))
    (x y : pyvalue) (rest : list pyvalue) :
  dict_lookup d (lit "currentPosition") = None ->
  dict_lookup d (lit "coins") = Some (PyList (PyList [x; y] :: rest)) ->
  process_game_state (PyDict d) =
    (error_report (KeyError (PyStr (lit "currentPosition"))), Return tt).
Proof.
  intros Hpos Hcoins. apply process_game_state_reports; [|done].
  assert (Hc : default (PyList []) (dict_lookup d (lit "coins"))
               = PyList (PyList [x; y] :: rest)) by (by rewrite Hcoins).
  rewrite build_grid_start. unfold py_get. rewrite Hc, bind_ret.
  change (py_iter (PyList ?l)) with (mret (M := M) l).
  rewrite bind_ret, for_each_cons, place_coin_pair.
  rewrite (store_cell_raise _ _ _ _ (KeyError (PyStr (lit "currentPosition"))))
    by (by apply relative_missing_position).
  by rewrite !bind_raise.
Qed.

Lemma missing_position_reports_KeyError_witness :
  dict_lookup [(lit "coins", PyList [PyList [PyInt 1; PyInt 1]])]
    (lit "currentPosition") = None /\
  process_game_state (PyDict [(lit "coins", PyList [PyList [PyInt 1; PyInt 1]])]) =
    (error_report (KeyError (PyStr (lit "currentPosition"))), Return tt).
Proof.
  split; [reflexivity|].
  exact (missing_position_reports_KeyError
           [(lit "coins", PyList [PyList [PyInt 1; PyInt 1]])]
           (PyInt 1) (PyInt 1) [] eq_refl eq_refl).
Defined.

(** ** Well-typed snapshots: when a grid is rendered, and what it shows *)

(** X4: on a well-typed snapshot the only failure is a coin outside the
    list index range: if every coin projects into [-5, 5) on both axes a
    5x5 grid is printed, otherwise the [IndexError] report and no grid.
    Walls never make the projection fail. *)
Theorem snapshot_renders_iff_coins_indexable (gs : GameState) :
  (Forall (fun coin => indexable (project gs coin)) (coins gs) ->
   exists g, shape5 g /\ renders (snapshot gs) g /\
     process_game_state (snapshot gs) = (grid_lines g, Return tt)) /\
  (~ Forall (fun coin => indexable (project gs coin)) (coins gs) ->
   process_game_state (snapshot gs) = (error_report IndexError, Return tt)).
Proof.
  split.
  - intros Hall. destruct (build_grid_snapshot gs Hall) as (g & Hg & Hshape & _).
    exists g. split_and!; [done..|].
    by rewrite (process_game_state_renders _ _ Hg), print_grid_output.
  - intros Hnot. apply not_Forall_Exists in Hnot; [|apply _].
    apply process_game_state_reports; [|done]. by apply build_grid_snapshot_aborts.
Qed.

Lemma snapshot_renders_iff_coins_indexable_witness :
  ~ Forall (fun coin => indexable (project far_coin coin)) (coins far_coin) /\
  process_game_state (snapshot far_coin) = (error_report IndexError, Return tt).
Proof.
  assert (Hnot : ~ Forall (fun coin => indexable (project far_coin coin))
                     (coins far_coin)).
  { intros Hall. apply Forall_cons_1 in Hall as [[Hx _] _].
    cbn in Hx. unfold center_x in Hx. lia. }
  split; [exact Hnot|].
  exact (proj2 (snapshot_renders_iff_coins_indexable far_coin) Hnot).
Defined.

(** X5: every cell of the grid rendered for a well-typed snapshot: ['W']
    if a wall projects onto the cell; else ['C'] if a coin's projected
    coordinates, taken modulo 5, are the cell's; else ['P'] at the centre
    and blank elsewhere. *)
Theorem rendered_cell_content (gs : GameState) (g : grid) (r c : nat) :
  renders (snapshot gs) g -> (r < 5)%nat -> (c < 5)%nat ->
  cell g r c =
    Some (if existsb (wall_hits gs r c) (walls gs) then lit "W"
          else if existsb (coin_hits gs r c) (coins gs) then lit "C"
          else if bool_decide (r = 2%nat /\ c = 2%nat) then lit "P"
          else blank).
Proof. apply rendered_cells. Qed.

Lemma rendered_cell_content_witness :
  exists g, renders (snapshot basic_scene) g /\ (2 < 5)%nat /\ (3 < 5)%nat /\
    cell g 2 3 = Some (lit "C").
Proof.
  eexists. split; [reflexivity|]. split; [lia|]. split; [lia|].
  exact (rendered_cell_content basic_scene _ 2 3 eq_refl
           ltac:(lia) ltac:(lia)).
Defined.

(** X6: the wall pass is a viewport.  In a rendered grid a cell holds
    ['W'] exactly when some wall of the snapshot projects onto that cell;
    a wall that projects outside [0, 5) on either axis leaves no mark. *)
Theorem wall_shown_iff_in_view (gs : GameState) (g : grid) (r c : nat) :
  renders (snapshot gs) g -> (r < 5)%nat -> (c < 5)%nat ->
  cell g r c = Some (lit "W") <->
  exists wall, In wall (walls gs) /\ project gs wall = (Z.of_nat r, Z.of_nat c).
Proof. apply walls_respect_view. Qed.

Lemma wall_shown_iff_in_view_witness :
  exists g, renders (snapshot basic_scene) g /\ (1 < 5)%nat /\ (2 < 5)%nat /\
    (cell g 1 2 = Some (lit "W") <->
     exists wall, In wall (walls basic_scene) /\
       project basic_scene wall = (Z.of_nat 1, Z.of_nat 2)).
Proof.
  eexists. split; [reflexivity|]. split; [lia|]. split; [lia|].
  exact (wall_shown_iff_in_view basic_scene _ 1 2 eq_refl ltac:(lia) ltac:(lia)).
Defined.

(** X7: the guard of the wall pass short-circuits.  A wall whose first
    coordinate projects outside [0, 5) is skipped before its second
    coordinate, or the second component of [currentPosition], is looked
    at: whatever they are, the grid is unchanged and nothing is raised. *)
Theorem wall_out_of_view_is_skipped (d : list (str * pyvalue)) (px x : Z)
    (position_rest : list pyvalue) (y : pyvalue) (g : grid) :
  dict_lookup d (lit "currentPosition") = Some (PyList (PyInt px :: position_rest)) ->
  ~ (0 <= x - px + 2 < 5) ->
  place_wall (PyDict d) (PyList [PyInt x; y]) g = mret g.
Proof.
  intros Hpos Hout. unfold place_wall.
  change (py_unpack2 (PyList [PyInt x; y])) with (mret (M := M) (PyInt x, y)).
  rewrite bind_ret. cbv beta iota.
  assert (Hrel : relative (PyDict d) (PyInt x) 0 center_x = mret (PyInt (x - px + 2))).
  { unfold relative. cbn [py_subscript]. rewrite Hpos. by rewrite bind_ret. }
  rewrite Hrel, bind_ret, py_between_int, bind_ret.
  replace ((0 <=? x - px + 2) && (x - px + 2 <? 5)) with false; [done|].
  symmetry. apply andb_false_iff.
  destruct (decide (0 <= x - px + 2)); [right; apply Z.ltb_ge | left; apply Z.leb_gt]; lia.
Qed.

Lemma wall_out_of_view_is_skipped_witness :
  dict_lookup [(lit "currentPosition", PyList [PyInt 0])] (lit "currentPosition")
    = Some (PyList [PyInt 0]) /\
  ~ (0 <= 9 - 0 + 2 < 5) /\
  place_wall (PyDict [(lit "currentPosition", PyList [PyInt 0])])
    (PyList [PyInt 9; PyNone]) player_only = mret player_only.
Proof.
  assert (Hout : ~ (0 <= 9 - 0 + 2 < 5)) by lia.
  split; [reflexivity|]. split; [exact Hout|].
  exact (wall_out_of_view_is_skipped [(lit "currentPosition", PyList [PyInt 0])]
           0 9 [] PyNone player_only eq_refl Hout).
Defined.

(** ** The projection depends on the scene only *)

(** Two 5x5 grids with the same cells are the same grid. *)
Lemma grid_ext (g g' : grid) :
  shape5 g -> shape5 g' ->
  (forall r c, (r < 5)%nat -> (c < 5)%nat -> cell g r c = cell g' r c) -> g = g'.
Proof.
  intros Hg Hg' Hcells. apply list_eq. intros r.
  destruct (decide (r < 5)%nat) as [Hr|Hr].
  - destruct (shape5_row g r Hg Hr) as (row & Hrow & Hlen).
    destruct (shape5_row g' r Hg' Hr) as (row' & Hrow' & Hlen').
    rewrite Hrow, Hrow'. f_equal. apply list_eq. intros c.
    destruct (decide (c < 5)%nat) as [Hc|Hc].
    + specialize (Hcells r c Hr Hc). unfold cell in Hcells.
      by rewrite Hrow, Hrow' in Hcells.
    + rewrite !lookup_ge_None_2; [done|lia..].
  - destruct Hg as [Hlen _], Hg' as [Hlen' _].
    rewrite !lookup_ge_None_2; [done|lia..].
Qed.

(** Snapshots that fail alike and fill the cells alike print alike. *)
Lemma process_game_state_ext (gs gs' : GameState) :
  (Forall (fun coin => indexable (project gs coin)) (coins gs) <->
   Forall (fun coin => indexable (project gs' coin)) (coins gs')) ->
  (forall r c, (r < 5)%nat -> (c < 5)%nat -> expected_cell gs r c = expected_cell gs' r c) ->
  process_game_state (snapshot gs) = process_game_state (snapshot gs').
Proof.
  intros Hidx Hcells.
  destruct (rendering_cases gs) as [(Hall & g & Hg & Hshape & Hc)|[Hbad Habort]].
  - destruct (build_grid_snapshot gs' (proj1 Hidx Hall)) as (g' & Hg' & Hshape' & Hc').
    rewrite (process_game_state_renders _ _ Hg), (process_game_state_renders _ _ Hg').
    f_equal. apply grid_ext; [done..|].
    intros r c Hr Hc0. by rewrite Hc, Hc', Hcells.
  - destruct (rendering_cases gs') as [(Hall' & _)|[_ Habort']].
    + apply Hidx in Hall'. apply Exists_not_Forall in Hbad. done.
    + by rewrite (process_game_state_reports _ _ Habort),
        (process_game_state_reports _ _ Habort').
Qed.

Lemma existsb_same_elements {A} (f f' : A -> bool) (l l' : list A) :
  (forall x, In x l <-> In x l') -> (forall x, f x = f' x) ->
  existsb f l = existsb f' l'.
Proof.
  intros Hl Hf. apply eq_true_iff_eq. rewrite !existsb_exists.
  split; intros (x & Hin & Hx); exists x; (split; [by apply Hl|]).
  - by rewrite <- Hf.
  - by rewrite Hf.
Qed.

(** X8: the rendered grid depends on the coins and walls as sets.  Take
    two snapshots with the same position whose coin lists have the same
    elements and whose wall lists have the same elements.  If every coin
    is within the index range, both print the same grid: order and
    repetitions in either list do not matter.  If some coin is not, both
    print an [IndexError] report and no grid; which coin fails first, and
    so the text of the report, can depend on the order. *)
Theorem rendering_ignores_order_and_duplicates (gs gs' : GameState) :
  currentPosition gs = currentPosition gs' ->
  (forall coin, In coin (coins gs) <-> In coin (coins gs')) ->
  (forall wall, In wall (walls gs) <-> In wall (walls gs')) ->
  (Forall (fun coin => indexable (project gs coin)) (coins gs) ->
   exists g, shape5 g /\
     process_game_state (snapshot gs) = (grid_lines g, Return tt) /\
     process_game_state (snapshot gs') = (grid_lines g, Return tt)) /\
  (~ Forall (fun coin => indexable (project gs coin)) (coins gs) ->
   build_grid (snapshot gs) = raise IndexError /\
   build_grid (snapshot gs') = raise IndexError).
Proof.
  intros Hpos Hcoins Hwalls.
  assert (Hproj : forall e, project gs e = project gs' e).
  { intros e. unfold project. by rewrite Hpos. }
  assert (Hidx : Forall (fun coin => indexable (project gs coin)) (coins gs) <->
                 Forall (fun coin => indexable (project gs' coin)) (coins gs')).
  { rewrite !Forall_forall. split; intros Hall coin Hin.
    - rewrite <- Hproj. apply Hall. apply list_elem_of_In, Hcoins.
      by apply list_elem_of_In.
    - rewrite Hproj. apply Hall. apply list_elem_of_In, Hcoins.
      by apply list_elem_of_In. }
  split.
  - intros Hall.
    destruct (build_grid_snapshot gs Hall) as (g & Hg & Hshape & Hc).
    destruct (build_grid_snapshot gs' (proj1 Hidx Hall)) as (g' & Hg' & Hshape' & Hc').
    assert (g' = g) as ->.
    { apply grid_ext; [done..|]. intros r c Hr Hc0. rewrite Hc, Hc' by done.
      f_equal. unfold expected_cell.
      rewrite (existsb_same_elements (wall_hits gs r c) (wall_hits gs' r c)
                 (walls gs) (walls gs')); [|done|].
      2:{ intros w. unfold wall_hits. by rewrite Hproj. }
      rewrite (existsb_same_elements (coin_hits gs r c) (coin_hits gs' r c)
                 (coins gs) (coins gs')); [done|done|].
      intros x. unfold coin_hits. by rewrite Hproj. }
    exists g. split; [done|].
    by rewrite (process_game_state_renders _ _ Hg), (process_game_state_renders _ _ Hg'),
      print_grid_output.
  - intros Hnot. split.
    + apply build_grid_snapshot_aborts. apply not_Forall_Exists; [apply _|done].
    + apply build_grid_snapshot_aborts. apply not_Forall_Exists; [apply _|].
      intros Hall'. by apply Hnot, Hidx.
Qed.

Lemma rendering_ignores_order_and_duplicates_witness :
  currentPosition scene_once = currentPosition scene_repeated /\
  (forall coin, In coin (coins scene_once) <-> In coin (coins scene_repeated)) /\
  (forall wall, In wall (walls scene_once) <-> In wall (walls scene_repeated)) /\
  Forall (fun coin => indexable (project scene_once coin)) (coins scene_once) /\
  exists g, shape5 g /\
    process_game_state (snapshot scene_once) = (grid_lines g, Return tt) /\
    process_game_state (snapshot scene_repeated) = (grid_lines g, Return tt).
Proof.
  assert (Hcoins : forall coin,
            In coin (coins scene_once) <-> In coin (coins scene_repeated))
    by (intros coin; simpl; tauto).
  assert (Hwalls : forall wall,
            In wall (walls scene_once) <-> In wall (walls scene_repeated))
    by (intros wall; simpl; tauto).
  assert (Hall : Forall (fun coin => indexable (project scene_once coin))
                   (coins scene_once)).
  { repeat (apply Forall_cons_2 || apply Forall_nil_2);
      split; cbn; unfold center_x, center_y; lia. }
  split; [reflexivity|]. split; [exact Hcoins|]. split; [exact Hwalls|].
  split; [exact Hall|].
  exact (proj1 (rendering_ignores_order_and_duplicates scene_once scene_repeated
                  eq_refl Hcoins Hwalls) Hall).
Defined.

Lemma project_translate (d : Z * Z) (gs : GameState) (e : Coordinate) :
  project (translate d gs) (shift d e) = project gs e.
Proof. unfold project, translate, shift. simpl. f_equal; lia. Qed.

Lemma existsb_fmap {A B} (f : B -> bool) (h : A -> B) (l : list A) :
  existsb f (h <$> l) = existsb (fun x => f (h x)) l.
Proof.
  induction l as [|x l IH]; [done|]. rewrite fmap_cons. cbn [existsb]. by rewrite IH.
Qed.

(** X9: the view is relative to the player.  Moving the player and every
    coin and wall by the same vector changes nothing in the output. *)
Theorem rendering_is_translation_invariant (d : Z * Z) (gs : GameState) :
  process_game_state (snapshot (translate d gs)) = process_game_state (snapshot gs).
Proof.
  apply process_game_state_ext.
  - cbn [translate coins]. rewrite Forall_fmap.
    split; intros Hall; (eapply Forall_impl; [exact Hall|]);
      intros coin; unfold compose; by rewrite project_translate.
  - intros r c _ _. unfold expected_cell. cbn [translate coins walls].
    rewrite !existsb_fmap.
    assert (Hw : forall w, wall_hits (translate d gs) r c (shift d w) = wall_hits gs r c w).
    { intros w. unfold wall_hits. by rewrite project_translate. }
    assert (Hc : forall x, coin_hits (translate d gs) r c (shift d x) = coin_hits gs r c x).
    { intros x. unfold coin_hits. by rewrite project_translate. }
    by rewrite (existsb_same_elements _ (wall_hits gs r c) (walls gs) (walls gs)),
      (existsb_same_elements _ (coin_hits gs r c) (coins gs) (coins gs)).
Qed.

(** ** What a rendered grid looks like, for any input *)

Lemma marker_length (m : str) : marker m -> length m = 1%nat.
Proof. by intros [-> | [-> | [-> | ->]]]. Qed.

Lemma tidy_player_only : tidy player_only.
Proof.
  split_and!.
  - apply shape5_set_cell, shape5_initial.
  - repeat (apply Forall_cons_2 || apply Forall_nil_2);
      first [by left | by right; left].
  - by vm_compute.
Qed.

(** A store of a visible marker keeps the grid tidy. *)
Lemma tidy_store (g : grid) (i j : nat) (row : list str) (mark : str) :
  tidy g -> g !! i = Some row -> (j < length row)%nat ->
  marker mark -> mark <> blank ->
  tidy (<[i := <[j := mark]> row]> g).
Proof.
  intros (Hshape & Hmarks & Hcentre) Hrow Hj Hmark Hvisible.
  assert (Hi : (i < 5)%nat) by (apply lookup_lt_Some in Hrow; destruct Hshape; lia).
  assert (Hlen : length row = 5%nat).
  { destruct Hshape as [_ Hrows]. by apply (Forall_lookup_1 _ _ _ _ Hrows Hrow). }
  assert (Hset : <[i := <[j := mark]> row]> g = set_cell g i j mark).
  { unfold set_cell. by rewrite Hrow. }
  rewrite Hset. split_and!.
  - by apply shape5_set_cell.
  - rewrite <- Hset. apply Forall_insert; [done|]. apply Forall_insert; [|done].
    by apply (Forall_lookup_1 _ _ _ _ Hmarks Hrow).
  - rewrite cell_set_cell by (done || lia). case_bool_decide; [|done].
    by intros [= ->].
Qed.

Lemma guarded_store_cell_tidy (g : grid) (a b : M pyvalue) (mark : str) :
  tidy g -> guarded anything a -> guarded anything b ->
  marker mark -> mark <> blank ->
  guarded tidy (store_cell g a b mark).
Proof.
  intros Hg Ha Hb Hmark Hvisible. unfold store_cell.
  eapply guarded_bind; [apply Ha|]. intros va _.
  eapply guarded_bind; [apply guarded_py_index|]. intros i Hi.
  destruct (g !! i) as [row|] eqn:Hrow; [|done].
  eapply guarded_bind; [apply Hb|]. intros vb _.
  eapply guarded_bind; [apply guarded_py_index|]. intros j Hj.
  apply guarded_ret. by apply tidy_store.
Qed.

Lemma guarded_place_coin_tidy (state coin : pyvalue) (g : grid) :
  tidy g -> guarded tidy (place_coin state coin g).
Proof.
  intros Hg. unfold place_coin. guarded_step.
  match goal with xy : pyvalue * pyvalue |- _ => destruct xy as [x y] end.
  apply guarded_store_cell_tidy; eauto with guarded.
  by right; right; left.
Qed.

Lemma guarded_place_wall_tidy (state wall : pyvalue) (g : grid) :
  tidy g -> guarded tidy (place_wall state wall g).
Proof.
  intros Hg. unfold place_wall. guarded_step.
  match goal with xy : pyvalue * pyvalue |- _ => destruct xy as [x y] end.
  do 2 guarded_step. match goal with in_x : bool |- _ => destruct in_x end; [|done].
  do 2 guarded_step. match goal with in_y : bool |- _ => destruct in_y end; [|done].
  apply guarded_store_cell_tidy; eauto with guarded.
  by right; right; right.
Qed.

Lemma guarded_build_grid_tidy (state : pyvalue) : guarded tidy (build_grid state).
Proof.
  rewrite build_grid_start. do 2 guarded_step.
  eapply guarded_bind.
  { apply guarded_for_each; [intros; by apply guarded_place_coin_tidy|].
    apply tidy_player_only. }
  intros g Hg. do 2 guarded_step.
  apply guarded_for_each; [intros; by apply guarded_place_wall_tidy|done].
Qed.

Lemma tidy_row_line (row : list str) :
  length row = 5%nat -> Forall marker row -> length (join blank row) = 9%nat.
Proof.
  intros Hlen Hrow.
  destruct row as [|a [|b [|c [|d [|e [|]]]]]]; try done.
  repeat match goal with
         | H : Forall _ (_ :: _) |- _ => apply Forall_cons_1 in H as [?%marker_length ?]
         end.
  cbn [join]. rewrite !length_app. simpl. lia.
Qed.

(** X10: whatever value is passed in, a grid that gets rendered has five
    rows of five cells, every cell holds one of [' '], ['P'], ['C'],
    ['W'], the centre cell is never blank, and every row is printed as a
    line of nine characters. *)
Theorem rendered_grid_is_tidy (state : pyvalue) (g : grid) :
  renders state g ->
  shape5 g /\
  (forall r c m, cell g r c = Some m -> marker m) /\
  cell g 2 2 <> Some blank /\
  Forall (fun row => length (join blank row) = 9%nat) g.
Proof.
  intros Hg. pose proof (guarded_build_grid_tidy state) as Hguard.
  unfold renders in Hg. rewrite Hg in Hguard.
  destruct Hguard as (Hshape & Hmarks & Hcentre). split_and!; [done| |done|].
  - intros r c m Hcell. unfold cell in Hcell.
    destruct (g !! r) as [row|] eqn:Hrow; [|done]. simpl in Hcell.
    pose proof (Forall_lookup_1 _ _ _ _ Hmarks Hrow) as Hrowmarks.
    by apply (Forall_lookup_1 _ _ _ _ Hrowmarks Hcell).
  - destruct Hshape as [_ Hrows]. apply Forall_forall. intros row Hin.
    rewrite Forall_forall in Hrows, Hmarks.
    apply tidy_row_line; [by apply Hrows|by apply Hmarks].
Qed.

Lemma rendered_grid_is_tidy_witness :
  renders (PyDict []) player_only /\
  shape5 player_only /\
  (forall r c m, cell player_only r c = Some m -> marker m) /\
  cell player_only 2 2 <> Some blank /\
  Forall (fun row => length (join blank row) = 9%nat) player_only.
Proof.
  split; [reflexivity|].
  exact (rendered_grid_is_tidy (PyDict []) player_only eq_refl).
Defined.

(** ** The callback: how it can fail, and what it never does *)

Lemma published_app (a b : list event) : published (a ++ b) = published a ++ published b.
Proof. apply omap_app. Qed.

Lemma published_grid_lines (g : grid) : published (grid_lines g) = [].
Proof.
  unfold grid_lines. rewrite published_app.
  assert (published ((fun row => Print (join blank row)) <$> g) = []) as ->; [|done].
  induction g as [|row g IH]; [done|]. by rewrite fmap_cons.
Qed.

Lemma published_process_game_state (state : pyvalue) :
  published (fst (process_game_state state)) = [].
Proof.
  destruct (process_game_state_outcome state)
    as (out & -> & [(g & _ & _ & ->)|(e & _ & _ & ->)]); [|done].
  apply published_grid_lines.
Qed.

Section CallbackFailures.
Context `{Runtime}.

(** X11: the callback fails in two ways only.  If [on_message] ends with
    an exception, then it had printed its two announcement lines and
    either the payload is not UTF-8 (and the exception is
    [UnicodeDecodeError]) or the topic contains [game_state] and the
    exception is the one [json.loads] raised on the decoded payload.  So a
    UTF-8 payload on any other topic never makes it fail. *)
Theorem on_message_failure_causes (msg : MQTTMessage) (out : list event) (e : exn) :
  on_message msg = (out, Raise e) ->
  out = announce msg /\
  ((utf8_decode (Byte.to_N <$> payload msg) = None /\ e = UnicodeDecodeError) \/
   (exists text, utf8_decode (Byte.to_N <$> payload msg) = Some text /\
      contains (lit "game_state") (topic msg) = true /\
      json_loads text = Raise e)).
Proof.
  destruct (utf8_decode (Byte.to_N <$> payload msg)) as [text|] eqn:Htext.
  - rewrite (on_message_decoded msg text Htext), bind_value.
    destruct (contains (lit "game_state") (topic msg)) eqn:Htopic.
    + destruct (json_loads text) as [doc|e'] eqn:Hload.
      * unfold lift. change (([], Return doc) : M pyvalue) with (mret (M := M) doc).
        rewrite bind_ret.
        by destruct (process_game_state_outcome doc) as (o & -> & _).
      * unfold lift. change (([], Raise e') : M pyvalue) with (raise (A := pyvalue) e').
        rewrite bind_raise. unfold raise. cbn [fst snd]. rewrite app_nil_r.
        intros [= <- <-]. split; [done|]. right. by exists text.
    + by destruct (contains (lit "scores") (topic msg)).
  - rewrite (on_message_undecodable msg Htext). intros [= <- <-]. split; [done|]. by left.
Qed.

(** X12: receiving never sends.  Every run of [on_message] starts with its
    two announcement lines, and nothing in its output is a call of
    [client.publish] or a prompt: it only prints. *)
Theorem on_message_only_prints (msg : MQTTMessage) :
  (exists out, fst (on_message msg) = announce msg ++ out) /\
  published (fst (on_message msg)) = [] /\
  (forall text, ~ In (Prompt text) (fst (on_message msg))).
Proof.
  assert (Hshape : exists out, fst (on_message msg) = announce msg ++ out /\
            (out = [] \/ (exists line, out = [Print line]) \/
             (exists doc, out = fst (process_game_state doc)))).
  { destruct (utf8_decode (Byte.to_N <$> payload msg)) as [text|] eqn:Htext.
    - rewrite (on_message_decoded msg text Htext), bind_value. cbn [fst].
      eexists. split; [reflexivity|].
      destruct (contains (lit "game_state") (topic msg)).
      + destruct (json_loads text) as [doc|e]; unfold lift.
        * change (([], Return doc) : M pyvalue) with (mret (M := M) doc).
          rewrite bind_ret. right. right. by exists doc.
        * by left.
      + destruct (contains (lit "scores") (topic msg)); right; left; by eexists.
    - rewrite (on_message_undecodable msg Htext). exists []. split; [|by left].
      cbn [fst]. by rewrite app_nil_r. }
  destruct Hshape as (out & Hout & Hcases). split; [by exists out|].
  rewrite Hout. split.
  - rewrite published_app.
    destruct Hcases as [-> | [[line ->] | [doc ->]]]; [done..|].
    by rewrite published_process_game_state.
  - intros text Hin. apply in_app_or in Hin as [Hin|Hin].
    { by destruct Hin as [?|[?|[]]]. }
    destruct Hcases as [-> | [[line ->] | [doc ->]]].
    + done.
    + by destruct Hin as [?|[]].
    + destruct (process_game_state_outcome doc)
        as (o & Hdoc & [(g & _ & _ & ->)|(e & _ & _ & ->)]);
        rewrite Hdoc in Hin; cbn [fst] in Hin.
      * unfold grid_lines in Hin. apply in_app_or in Hin as [Hin|Hin].
        -- apply list_elem_of_In, list_elem_of_fmap in Hin as (row & Heq & _). done.
        -- by destruct Hin as [?|[]].
      * by destruct Hin as [?|[]].
Qed.

End CallbackFailures.

Lemma on_message_failure_causes_witness :
  @on_message example_runtime garbled_state_message =
    (announce garbled_state_message, Raise JSONDecodeError) /\
  exists text,
    utf8_decode (Byte.to_N <$> payload garbled_state_message) = Some text /\
    contains (lit "game_state") (topic garbled_state_message) = true /\
    @json_loads example_runtime text = Raise JSONDecodeError.
Proof.
  split; [reflexivity|].
  destruct (@on_message_failure_causes example_runtime garbled_state_message
              (announce garbled_state_message) JSONDecodeError eq_refl)
    as [_ [[Hnone _]|Hsome]].
  - discriminate Hnone.
  - exact Hsome.
Defined.

(** ** The input loop over a whole session *)

Lemma fst_bind_value {A B} (log : list event) (a : A) (k : A -> M B) :
  fst (((log, Return a) : M A) ≫= k) = log ++ fst (k a).
Proof. by rewrite bind_value. Qed.

Lemma snd_bind_value {A B} (log : list event) (a : A) (k : A -> M B) :
  snd (((log, Return a) : M A) ≫= k) = snd (k a).
Proof. by rewrite bind_value. Qed.

Section Session.
Context `{Runtime}.
Variables player_name lobby_name : str.

Local Abbreviation moves := (move_messages player_name lobby_name).

Lemma user_input_control_interrupt (rest : list stdin_event) :
  user_input_control player_name lobby_name (CtrlC :: rest) =
    ([Prompt (move_prompt player_name); Print (lit "Game interrupted.")],
     Return Returned).
Proof. reflexivity. Qed.

Lemma user_input_control_end_of_input (rest : list stdin_event) :
  user_input_control player_name lobby_name (EndOfInput :: rest) =
    ([Prompt (move_prompt player_name)], Raise EOFError).
Proof. reflexivity. Qed.

(** A token other than [STOP] publishes its move, if it is one, and hands
    over to the rest of the input. *)
Lemma user_input_control_goes_on (token : str) (rest : list stdin_event) :
  str_upper token <> lit "STOP" ->
  exists evs,
    user_input_control player_name lobby_name (Line token :: rest) =
      ((evs, Return tt) : M unit) ≫= (fun _ => user_input_control player_name lobby_name rest) /\
    published evs = moves [token].
Proof.
  intros Hgo. unfold move_messages. cbn [List.filter].
  destruct (is_direction (str_upper token)) eqn:Hdir.
  - eexists. split.
    + apply user_input_control_direction. by apply existsb_str_eqb.
    + done.
  - eexists. split.
    + apply user_input_control_invalid. intros Hin.
      change (In (str_upper token) (directions ++ [lit "STOP"])) in Hin.
      apply in_app_or in Hin as [Hin|[Heq|[]]]; [|done].
      apply existsb_str_eqb in Hin. unfold is_direction in Hdir.
      by rewrite Hin in Hdir.
    + done.
Qed.

Lemma moves_cons (token : str) (tokens : list str) :
  moves (token :: tokens) = moves [token] ++ moves tokens.
Proof.
  unfold move_messages. cbn [List.filter].
  by destruct (is_direction (str_upper token)).
Qed.

Lemma user_input_control_tokens (tokens : list str) (tail : list stdin_event) :
  Forall (fun token => str_upper token <> lit "STOP") tokens ->
  exists evs,
    user_input_control player_name lobby_name ((Line <$> tokens) ++ tail) =
      ((evs, Return tt) : M unit) ≫= (fun _ => user_input_control player_name lobby_name tail) /\
    published evs = moves tokens.
Proof.
  induction 1 as [|token tokens Hgo _ (evs & IH & Hpub)].
  - exists []. split; [|done]. change ((Line <$> []) ++ tail) with tail.
    rewrite bind_value. by destruct (user_input_control player_name lobby_name tail).
  - destruct (user_input_control_goes_on token ((Line <$> tokens) ++ tail) Hgo)
      as (evs0 & Hstep & Hpub0).
    exists (evs0 ++ evs). split.
    + rewrite fmap_cons, <- app_comm_cons, Hstep, IH, !bind_value.
      cbn [fst snd]. by rewrite app_assoc.
    + rewrite published_app, Hpub0, Hpub. symmetry. apply moves_cons.
Qed.

Lemma prompted_app (a b : list event) : prompted (a ++ b) = prompted a ++ prompted b.
Proof. apply omap_app. Qed.

(** The events of a token other than [STOP] do not depend on what follows
    it, and [input] is called once for it. *)
Lemma user_input_control_goes_on_trace (token : str) :
  str_upper token <> lit "STOP" ->
  exists evs,
    (forall rest,
       user_input_control player_name lobby_name (Line token :: rest) =
         ((evs, Return tt) : M unit)
         ≫= (fun _ => user_input_control player_name lobby_name rest)) /\
    published evs = moves [token] /\
    prompted evs = [move_prompt player_name].
Proof.
  intros Hgo. unfold move_messages. cbn [List.filter].
  destruct (is_direction (str_upper token)) eqn:Hdir.
  - exists [Prompt (move_prompt player_name);
            Publish (move_topic lobby_name player_name) (str_upper token)].
    split_and!; [|done..].
    intros rest. apply user_input_control_direction. by apply existsb_str_eqb.
  - exists [Prompt (move_prompt player_name);
            Print (lit "Invalid move. Please try again.")].
    split_and!; [|done..].
    intros rest. apply user_input_control_invalid. intros Hin.
    change (In (str_upper token) (directions ++ [lit "STOP"])) in Hin.
    apply in_app_or in Hin as [Hin|[Heq|[]]]; [|done].
    apply existsb_str_eqb in Hin. unfold is_direction in Hdir.
    by rewrite Hin in Hdir.
Qed.

Lemma user_input_control_tokens_trace (tokens : list str) :
  Forall (fun token => str_upper token <> lit "STOP") tokens ->
  exists evs,
    (forall tail,
       user_input_control player_name lobby_name ((Line <$> tokens) ++ tail) =
         ((evs, Return tt) : M unit)
         ≫= (fun _ => user_input_control player_name lobby_name tail)) /\
    published evs = moves tokens /\
    prompted evs = replicate (length tokens) (move_prompt player_name).
Proof.
  induction 1 as [|token tokens Hgo _ (evs & IH & Hpub & Hprompts)].
  - exists []. split_and!; [|done..]. intros tail.
    change ((Line <$> []) ++ tail) with tail.
    rewrite bind_value. by destruct (user_input_control player_name lobby_name tail).
  - destruct (user_input_control_goes_on_trace token Hgo)
      as (evs0 & Hstep & Hpub0 & Hprompts0).
    exists (evs0 ++ evs). split_and!.
    + intros tail. rewrite fmap_cons, <- app_comm_cons, Hstep, IH, !bind_value.
      cbn [fst snd]. by rewrite app_assoc.
    + rewrite published_app, Hpub0, Hpub. symmetry. apply moves_cons.
    + by rewrite prompted_app, Hprompts0, Hprompts.
Qed.

(** X13: a session that ends with [STOP].  For tokens none of which is
    [STOP], followed by [STOP], the run is the same whatever input
    follows: [input] has been called once per token and once for [STOP],
    one move message per direction token has been published, in the order
    typed, on [games/{lobby}/{player}/move], and the run ends with the
    prompt answered by [STOP], the one ["STOP"] message on
    [games/{lobby}/start], and the return of the function. *)
Theorem session_until_stop (tokens : list str) (stop : str) :
  Forall (fun token => str_upper token <> lit "STOP") tokens ->
  str_upper stop = lit "STOP" ->
  exists evs,
    (forall rest,
       user_input_control player_name lobby_name
         ((Line <$> tokens) ++ Line stop :: rest) =
         (evs ++ [ Prompt (move_prompt player_name);
                   Publish (lit "games/" ++ lobby_name ++ lit "/start") (lit "STOP") ],
          Return Returned)) /\
    published evs =
      (fun token =>
         (lit "games/" ++ lobby_name ++ lit "/" ++ player_name ++ lit "/move",
          str_upper token))
      <$> List.filter
            (fun token =>
               existsb (str_eqb (str_upper token))
                 [lit "UP"; lit "DOWN"; lit "LEFT"; lit "RIGHT"])
            tokens /\
    prompted evs = replicate (length tokens) (move_prompt player_name).
Proof.
  intros Hgo Hstop.
  destruct (user_input_control_tokens_trace tokens Hgo) as (evs & Hrun & Hpub & Hprompts).
  exists evs. split_and!; [|done..].
  intros rest. rewrite Hrun, bind_value.
  by rewrite (user_input_control_stop _ _ stop rest Hstop).
Qed.

(** X14: a session that is interrupted.  For tokens none of which is
    [STOP], followed by the interrupt signal, the loop has published the
    move messages of the direction tokens and nothing else; it then
    prompts, prints ["Game interrupted."] and returns, publishing no
    ["STOP"]. *)
Theorem session_until_interrupt (tokens : list str) (rest : list stdin_event) :
  Forall (fun token => str_upper token <> lit "STOP") tokens ->
  exists evs,
    user_input_control player_name lobby_name ((Line <$> tokens) ++ CtrlC :: rest) =
      (evs ++ [Prompt (move_prompt player_name); Print (lit "Game interrupted.")],
       Return Returned) /\
    published evs = move_messages player_name lobby_name tokens.
Proof.
  intros Hgo.
  destruct (user_input_control_tokens tokens (CtrlC :: rest) Hgo) as (evs & -> & Hpub).
  exists evs. split; [|done].
  by rewrite bind_value, user_input_control_interrupt.
Qed.

(** X15: end of input is not handled.  For tokens none of which is [STOP],
    followed by the end of standard input, the [EOFError] of [input()]
    leaves [user_input_control]: only [KeyboardInterrupt] is caught.  The
    moves typed before it have been published. *)
Theorem session_until_end_of_input (tokens : list str) (rest : list stdin_event) :
  Forall (fun token => str_upper token <> lit "STOP") tokens ->
  exists evs,
    user_input_control player_name lobby_name ((Line <$> tokens) ++ EndOfInput :: rest) =
      (evs ++ [Prompt (move_prompt player_name)], Raise EOFError) /\
    published evs = move_messages player_name lobby_name tokens.
Proof.
  intros Hgo.
  destruct (user_input_control_tokens tokens (EndOfInput :: rest) Hgo) as (evs & -> & Hpub).
  exists evs. split; [|done].
  by rewrite bind_value, user_input_control_end_of_input.
Qed.

(** X16: the loop publishes nothing but moves and the stop signal.
    Whatever arrives on standard input, every message handed to
    [client.publish] is one of the four direction names on the player's
    move topic, or ["STOP"] on the lobby's start topic. *)
Theorem only_moves_and_stop_are_published (stdin : list stdin_event) :
  Forall (fun message =>
            (fst message = move_topic lobby_name player_name /\
             In (snd message) directions) \/
            message = (start_topic lobby_name, lit "STOP"))
    (published (fst (user_input_control player_name lobby_name stdin))).
Proof.
  induction stdin as [|[token| |] rest IH].
  - apply Forall_nil_2.
  - destruct (decide (str_upper token = lit "STOP")) as [Hstop|Hgo].
    + rewrite (user_input_control_stop _ _ token rest Hstop).
      apply Forall_cons_2; [by right|apply Forall_nil_2].
    + destruct (is_direction (str_upper token)) eqn:Hdir.
      * apply existsb_str_eqb in Hdir.
        rewrite (user_input_control_direction _ _ token rest Hdir), fst_bind_value.
        apply Forall_cons_2; [by left|done].
      * rewrite (user_input_control_invalid _ _ token rest), fst_bind_value; [done|].
        intros Hin. change (In (str_upper token) (directions ++ [lit "STOP"])) in Hin.
        apply in_app_or in Hin as [Hin|[Heq|[]]]; [|done].
        apply existsb_str_eqb in Hin. unfold is_direction in Hdir.
        by rewrite Hin in Hdir.
  - rewrite user_input_control_interrupt. apply Forall_nil_2.
  - rewrite user_input_control_end_of_input. apply Forall_nil_2.
Qed.

End Session.

Lemma typed_tokens_go_on :
  Forall (fun token => @str_upper example_runtime token <> lit "STOP") typed_tokens.
Proof. repeat (apply Forall_cons_2 || apply Forall_nil_2); discriminate. Qed.

Lemma session_until_stop_witness :
  Forall (fun token => @str_upper example_runtime token <> lit "STOP") typed_tokens /\
  @str_upper example_runtime (lit "Stop") = lit "STOP" /\
  exists evs,
    (forall rest,
       @user_input_control example_runtime (lit "Player1") (lit "TestLobby")
         ((Line <$> typed_tokens) ++ Line (lit "Stop") :: rest) =
         (evs ++ [ Prompt (move_prompt (lit "Player1"));
                   Publish (lit "games/TestLobby/start") (lit "STOP") ],
          Return Returned)) /\
    published evs =
      [ (lit "games/TestLobby/Player1/move", lit "UP");
        (lit "games/TestLobby/Player1/move", lit "LEFT") ] /\
    prompted evs = replicate 3 (move_prompt (lit "Player1")).
Proof.
  split; [exact typed_tokens_go_on|]. split; [reflexivity|].
  exact (@session_until_stop example_runtime (lit "Player1") (lit "TestLobby")
           typed_tokens (lit "Stop") typed_tokens_go_on eq_refl).
Defined.

Lemma session_until_interrupt_witness :
  Forall (fun token => @str_upper example_runtime token <> lit "STOP") typed_tokens /\
  exists evs,
    @user_input_control example_runtime (lit "Player1") (lit "TestLobby")
      ((Line <$> typed_tokens) ++ CtrlC :: []) =
      (evs ++ [Prompt (move_prompt (lit "Player1")); Print (lit "Game interrupted.")],
       Return Returned) /\
    published evs =
      @move_messages example_runtime (lit "Player1") (lit "TestLobby") typed_tokens.
Proof.
  split; [exact typed_tokens_go_on|].
  exact (@session_until_interrupt example_runtime (lit "Player1") (lit "TestLobby")
           typed_tokens [] typed_tokens_go_on).
Defined.

Lemma session_until_end_of_input_witness :
  Forall (fun token => @str_upper example_runtime token <> lit "STOP") typed_tokens /\
  exists evs,
    @user_input_control example_runtime (lit "Player1") (lit "TestLobby")
      ((Line <$> typed_tokens) ++ EndOfInput :: []) =
      (evs ++ [Prompt (move_prompt (lit "Player1"))], Raise EOFError) /\
    published evs =
      @move_messages example_runtime (lit "Player1") (lit "TestLobby") typed_tokens.
Proof.
  split; [exact typed_tokens_go_on|].
  exact (@session_until_end_of_input example_runtime (lit "Player1") (lit "TestLobby")
           typed_tokens [] typed_tokens_go_on).
Defined.

(** ** A coin that is not a pair *)

(** X17: the first coin decides before anything is drawn.  If it is a list
    of any length other than two, unpacking it raises [ValueError]; the
    projection reports it and prints no grid, whatever the position, the
    other coins and the walls are. *)
Theorem coin_not_a_pair_reports_ValueError (d : list (str * pyvalue))
    (items rest : list pyvalue) :
  length items <> 2%nat ->
  dict_lookup d (lit "coins") = Some (PyList (PyList items :: rest)) ->
  process_game_state (PyDict d) = (error_report ValueError, Return tt).
Proof.
  intros Hlen Hcoins. apply process_game_state_reports; [|done].
  assert (Hc : default (PyList []) (dict_lookup d (lit "coins"))
               = PyList (PyList items :: rest)) by (by rewrite Hcoins).
  rewrite build_grid_start. unfold py_get. rewrite Hc, bind_ret.
  change (py_iter (PyList ?l)) with (mret (M := M) l).
  rewrite bind_ret, for_each_cons.
  assert (Hunpack : py_unpack2 (PyList items) = raise ValueError).
  { unfold py_unpack2. change (py_iter (PyList items)) with (mret (M := M) items).
    rewrite bind_ret. by destruct items as [|x [|y [|z items]]]. }
  unfold place_coin. rewrite Hunpack. by rewrite !bind_raise.
Qed.

Lemma coin_not_a_pair_reports_ValueError_witness :
  length [PyInt 1; PyInt 2; PyInt 3] <> 2%nat /\
  process_game_state
    (PyDict [(lit "currentPosition", PyList [PyInt 0; PyInt 0]);
             (lit "coins", PyList [PyList [PyInt 1; PyInt 2; PyInt 3]])]) =
    (error_report ValueError, Return tt).
Proof.
  assert (Hlen : length [PyInt 1; PyInt 2; PyInt 3] <> 2%nat) by discriminate.
  split; [exact Hlen|].
  exact (coin_not_a_pair_reports_ValueError
           [(lit "currentPosition", PyList [PyInt 0; PyInt 0]);
            (lit "coins", PyList [PyList [PyInt 1; PyInt 2; PyInt 3]])]
           [PyInt 1; PyInt 2; PyInt 3] [] Hlen eq_refl).
Defined.
